(** * The star-registry blockchain of [src/blockchain.js]

    A shallow embedding of the [Blockchain] class: the chain array and the
    height counter are an explicit ledger state, every method is a function
    from the ledger (and the clock readings it makes) to the outcome of the
    promise it returns and the ledger it leaves behind.

    Conventions of the embedding.
    - JavaScript strings are [string]s (code units below 256).
    - JavaScript numbers are exact integers plus [NaN]; that is what
      [parseInt] yields on every digit string below 2^53, which covers all
      timestamps in seconds or milliseconds.
    - [new Date().getTime()] is a parameter of the method that reads it.
    - [SHA256], [JSON.stringify] on a block, [bitcoinMessage.verify] and the
      payload codec are parameters (external libraries).
    - A method is run to quiescence: the event loop holds no other task of
      the ledger while a method is in flight (single writer).
    - Blocks are values: [_addBlock] is only ever handed a block its caller
      has just created, so that no two entries of the chain are one
      object. *)

From Stdlib Require Import ZArith List String Ascii Bool Lia.
Import ListNotations.

Local Open Scope string_scope.
Local Open Scope Z_scope.

(** ** JavaScript strings *)

Module JsString.

  (** [s.slice(0, -k)]: all of [s] but its last [k] code units, the empty
      string when [s] has no more than [k]. *)
Definition slice_0_neg (k : nat) (s : string) : string :=
    substring 0 (String.length s - k) s.

  (** One decimal digit as a code unit. *)
Definition digit_char (d : Z) : ascii :=
    ascii_of_nat (48 + Z.to_nat d).

  (** The digits of [n], most significant first, in front of [acc]. *)
Fixpoint digits_fuel (fuel : nat) (n : Z) (acc : string) : string :=
    match fuel with
    | O => acc
    | S fuel' =>
        let acc' := String (digit_char (n mod 10)) acc in
        if n / 10 =? 0 then acc' else digits_fuel fuel' (n / 10) acc'
    end.

Definition digits (n : Z) : string :=
    digits_fuel (S (Z.to_nat (Z.log2 n))) n "".

  (** [Number.prototype.toString()] on an integer (plain decimal notation,
      which JavaScript uses below 10^21). *)
Definition toString (n : Z) : string :=
    if n <? 0 then String "-" (digits (- n)) else digits n.

  (** [s.split(sep)] for a separator of one code unit: [cur] holds the
      field being read. *)
Fixpoint split_aux (sep : ascii) (s : string) (cur : string) : list string :=
    match s with
    | EmptyString => [cur]
    | String c s' =>
        if Ascii.eqb c sep
        then cur :: split_aux sep s' ""
        else split_aux sep s' (cur ++ String c "")
    end.

Definition split (sep : ascii) (s : string) : list string :=
    split_aux sep s "".

  (** [s.includes(c)] for one code unit. *)
Fixpoint includes (c : ascii) (s : string) : bool :=
  match s with
  | EmptyString => false
  | String c' s' => Ascii.eqb c' c || includes c s'
  end.

(** A string is truthy when it is not empty. *)
Definition truthy (s : string) : bool :=
    match s with EmptyString => false | _ => true end.

End JsString.

(** ** JavaScript numbers and [parseInt] *)

Module JsNumber.

Inductive Number : Type :=
  | NaN
  | Num (z : Z).

Definition add (a b : Number) : Number :=
    match a, b with
    | Num x, Num y => Num (x + y)
    | _, _ => NaN
    end.

  (** [a >= b]: false as soon as one side is [NaN]. *)
Definition ge (a b : Number) : bool :=
    match a, b with
    | Num x, Num y => y <=? x
    | _, _ => false
    end.

  (** White space skipped by [parseInt]: TAB, LF, VT, FF, CR, SP, NBSP. *)
Definition is_white_space (c : ascii) : bool :=
    let n := nat_of_ascii c in
    ((9 <=? n) && (n <=? 13) || (n =? 32) || (n =? 160))%nat.

Fixpoint skip_white_space (s : string) : string :=
    match s with
    | String c s' => if is_white_space c then skip_white_space s' else s
    | EmptyString => s
    end.

  (** Value of a code unit as a digit in [radix], if it is one. *)
Definition digit_value (radix : Z) (c : ascii) : option Z :=
    let n := Z.of_nat (nat_of_ascii c) in
    let v :=
      if (48 <=? n) && (n <=? 57) then Some (n - 48)
      else if (97 <=? n) && (n <=? 122) then Some (n - 87)
      else if (65 <=? n) && (n <=? 90) then Some (n - 55)
      else None in
    match v with
    | Some d => if d <? radix then Some d else None
    | None => None
    end.

  (** The longest prefix of digits, read most significant first; [acc] is
      [None] until a digit has been read. *)
Fixpoint parse_digits (radix : Z) (s : string) (acc : option Z) : option Z :=
    match s with
    | EmptyString => acc
    | String c s' =>
        match digit_value radix c with
        | Some d =>
            parse_digits radix s'
              (Some (radix * match acc with Some a => a | None => 0 end + d))
        | None => acc
        end
    end.

Definition strip_sign (s : string) : Z * string :=
    match s with
    | String "-" s' => (-1, s')
    | String "+" s' => (1, s')
    | _ => (1, s)
    end.

Definition strip_hex_prefix (s : string) : Z * string :=
    match s with
    | String "0" (String "x" s') => (16, s')
    | String "0" (String "X" s') => (16, s')
    | _ => (10, s)
    end.

  (** [parseInt(s)] with no radix argument. *)
Definition parseInt_string (s : string) : Number :=
    let '(sign, s1) := strip_sign (skip_white_space s) in
    let '(radix, s2) := strip_hex_prefix s1 in
    match parse_digits radix s2 None with
    | Some v => Num (sign * v)
    | None => NaN
    end.

  (** [parseInt(v)] where [v] is a string or [undefined]: the argument is
      first converted to a string. *)
Definition parseInt (v : option string) : Number :=
    parseInt_string (match v with Some s => s | None => "undefined" end).

(** Strings made of decimal digits only. *)
Fixpoint is_decimal (s : string) : bool :=
  match s with
  | EmptyString => true
  | String c s' =>
      match digit_value 10 c with
      | Some _ => is_decimal s'
      | None => false
      end
  end.

End JsNumber.

Import JsString JsNumber.

(** ** Errors, promises and the ledger *)

(** What a promise is rejected with, or what a call throws. *)
Inductive JsError : Type :=
| Error (message : string)          (* [Error("...")] *)
| ErrorLog (errorLog : list string) (* the array [validateChain] rejects with *)
| DecodeError (body : string).      (* thrown by [getBData] *)

(** Result of a synchronous call that may throw. *)
Inductive Completion (A : Type) : Type :=
| Normal (a : A)
| Throw (e : JsError).
Arguments Normal {A} a.
Arguments Throw {A} e.

(** State of a promise once the event loop is quiet. *)
Inductive Promise (A : Type) : Type :=
| Fulfilled (a : A)
| Rejected (e : JsError)
| Pending.
Arguments Fulfilled {A} a.
Arguments Rejected {A} e.
Arguments Pending {A}.

(** The decoded body of a block: [{data: ...}] or [{owner: ..., star: ...}]
    (the star object is kept as its JSON text). *)
Inductive Payload : Type :=
| GenesisData (data : string)
| StarData (owner : string) (star : string).

(** [decodedBody.owner]: [undefined] when the object has no such field. *)
Definition owner (p : Payload) : option string :=
  match p with
  | GenesisData _ => None
  | StarData o _ => Some o
  end.

(** [array.push(x)]. *)
Definition push {A} (array : list A) (x : A) : list A :=
  app array [x].

Definition option_string_eqb (a b : option string) : bool :=
  match a, b with
  | Some x, Some y => String.eqb x y
  | None, None => true
  | _, _ => false
  end.

Module Block.

  (** Modelled from the spec: the Block class of block.js, which is not
      among the sources. A block holds the encoded payload, its height, its
      timestamp, the hash of the preceding block and its own hash; a field
      that is not set yet is [None]. *)
Record t : Type := mk {
    hash : option string;
    height : option Z;
    body : string;
    time : option string;
    previousBlockHash : option string
  }.

Section Methods.
Variable SHA256 : string -> string.
Variable JSON_stringify : t -> string.
Variable encode : Payload -> string.
Variable decode : string -> option Payload.

    (** Modelled from the spec: the constructor of block.js sets the
        payload and leaves height, timestamp, previous hash and hash
        unset. *)
Definition create (data : Payload) : t :=
      mk None None (encode data) None None.

    (** Modelled from the spec: getBData of block.js deserializes the
        stored payload and fails with a decode error on malformed data. *)
Definition getBData (b : t) : Completion Payload :=
      match decode (body b) with
      | Some data => Normal data
      | None => Throw (DecodeError (body b))
      end.

    (** Modelled from the spec: validate of block.js recomputes the digest
        over the fields of the block with the stored hash excluded and
        tells whether it equals the stored hash. *)
Definition validate (b : t) : bool :=
      option_string_eqb (hash b)
        (Some (SHA256 (JSON_stringify
           (mk None (height b) (body b) (time b) (previousBlockHash b))))).
End Methods.

End Block.

(** The fields of a [Blockchain] object. *)
Record Blockchain : Type := mkBlockchain {
  chain : list Block.t;
  height : Z
}.

(** ** Promise executors

    The body of [new Promise((resolve, reject) => ...)] is a computation
    over the ledger and over the state of the promise under construction.
    [resolve] and [reject] settle the promise the first time one of them is
    called and do nothing afterwards; neither ends the executor. *)

Inductive Step (A : Type) : Type :=
| Return (a : A)
| Raise (e : JsError)
| AwaitForever.
Arguments Return {A} a.
Arguments Raise {A} e.
Arguments AwaitForever {A}.

Definition Exec (R A : Type) : Type :=
  Blockchain -> Promise R -> Step A * Blockchain * Promise R.

Section Executor.
Context {R : Type}.

Definition ret {A} (a : A) : Exec R A :=
    fun self p => (Return a, self, p).

Definition bind {A B} (m : Exec R A) (k : A -> Exec R B) : Exec R B :=
    fun self p =>
      match m self p with
      | (Return a, self', p') => k a self' p'
      | (Raise e, self', p') => (Raise e, self', p')
      | (AwaitForever, self', p') => (AwaitForever, self', p')
      end.

Definition settle (outcome : Promise R) : Exec R unit :=
    fun self p =>
      (Return tt, self, match p with Pending => outcome | _ => p end).

Definition resolve (value : R) : Exec R unit := settle (Fulfilled value).
Definition reject (e : JsError) : Exec R unit := settle (Rejected e).

Definition get : Exec R Blockchain :=
    fun self p => (Return self, self, p).

Definition put (self' : Blockchain) : Exec R unit :=
    fun _ p => (Return tt, self', p).

  (** A synchronous call that may throw. *)
Definition call {A} (c : Completion A) : Exec R A :=
    fun self p =>
      (match c with Normal a => Return a | Throw e => Raise e end, self, p).

  (** [await m()]: the method runs on the ledger; the executor goes on with
      the value of its promise, throws what it was rejected with, and never
      resumes when it stays pending. *)
Definition await {A} (m : Blockchain -> Promise A * Blockchain) : Exec R A :=
    fun self p =>
      let '(q, self') := m self in
      (match q with
       | Fulfilled a => Return a
       | Rejected e => Raise e
       | Pending => AwaitForever
       end, self', p).

  (** [try { body } catch (error) { handler }]. *)
Definition try_catch {A} (body : Exec R A) (handler : JsError -> Exec R A)
    : Exec R A :=
    fun self p =>
      match body self p with
      | (Raise e, self', p') => handler e self' p'
      | r => r
      end.

  (** [if (c) { m }] with no else branch. *)
Definition when (c : bool) (m : Exec R unit) : Exec R unit :=
    if c then m else ret tt.

  (** [new Promise(executor)] with a plain function: an exception of the
      executor rejects the promise when it is not settled yet. *)
Definition new_Promise (executor : Exec R unit)
    : Blockchain -> Promise R * Blockchain :=
    fun self =>
      match executor self Pending with
      | (Raise e, self', Pending) => (Rejected e, self')
      | (_, self', p) => (p, self')
      end.

  (** [new Promise(async executor)]: the executor returns a promise of its
      own, which nobody looks at; when it throws or waits forever the
      promise under construction keeps the state it had. *)
Definition new_Promise_async (executor : Exec R unit)
    : Blockchain -> Promise R * Blockchain :=
    fun self =>
      let '(_, self', p) := executor self Pending in (p, self').

End Executor.

(** The promise returned by an [async] function with body [m]. *)
Definition async {A} (m : Exec unit A) : Blockchain -> Promise A * Blockchain :=
  fun self =>
    let '(s, self', _) := m self Pending in
    (match s with
     | Return a => Fulfilled a
     | Raise e => Rejected e
     | AwaitForever => Pending
     end, self').

Declare Scope exec_scope.
Delimit Scope exec_scope with exec.
Notation "x <- m ;; k" := (bind m (fun x => k))
  (at level 61, m at next level, right associativity) : exec_scope.
Notation "m ;; k" := (bind m (fun _ => k))
  (at level 61, right associativity) : exec_scope.
Local Open Scope exec_scope.

(** ** The external libraries *)

(** What the class takes from outside: the digest of crypto-js, the
    rendering of a block by [JSON.stringify], the payload codec of
    block.js and [bitcoinMessage.verify(message, address, signature)]. *)
Class Externals : Type := {
  SHA256 : string -> string;
  JSON_stringify : Block.t -> string;
  encode : Payload -> string;
  decode : string -> option Payload;
  verify : string -> string -> string -> Completion bool
}.

(** ** A reference instance of the external libraries

    An injective stand-in for the digest, a field-by-field rendering of a
    block, a two-shape payload codec and a signature check that accepts the
    signature [valid], throws on [malformed] and refuses the rest. The
    theorems below hold for every instance; this one is used to run the
    methods on concrete ledgers. *)

Module Sample.

Definition SHA256 (s : string) : string := "sha256(" ++ s ++ ")".

Definition show (v : option string) : string :=
  match v with
  | Some s => "<" ++ s ++ ">"
  | None => "null"
  end.

Definition JSON_stringify (b : Block.t) : string :=
  "{hash:" ++ show (Block.hash b) ++
  ",height:" ++ show (option_map toString (Block.height b)) ++
  ",body:" ++ Block.body b ++
  ",time:" ++ show (Block.time b) ++
  ",previousBlockHash:" ++ show (Block.previousBlockHash b) ++ "}".

Definition encode (data : Payload) : string :=
  match data with
  | GenesisData d => "G" ++ d
  | StarData o s => "S" ++ o ++ ":" ++ s
  end.

Definition decode (body : string) : option Payload :=
  match body with
  | String "G" d => Some (GenesisData d)
  | String "S" rest =>
      match split ":" rest with
      | [o; s] => Some (StarData o s)
      | _ => None
      end
  | _ => None
  end.

Definition verify (message address signature : string) : Completion bool :=
  if String.eqb signature "valid" then Normal true
  else if String.eqb signature "malformed"
       then Throw (Error "Invalid signature length")
       else Normal false.

Definition externals : Externals :=
  Build_Externals SHA256 JSON_stringify encode decode verify.

End Sample.

(** ** The methods of [Blockchain] *)

Section Ledger.

Context {ext : Externals}.

(** The clock reading as text in seconds:
    [new Date().getTime().toString().slice(0,-3)]. *)
Definition timeText (now : Z) : string :=
  slice_0_neg 3 (toString now).

(** The loop of [validateChain] from index [i] on: [previousBlock] is
    [chain[i-1]] and [blocks] is what is left of the chain. *)
Fixpoint validate_from (i : nat) (previousBlock : Block.t)
    (blocks : list Block.t) (errorLog : list string) : list string :=
  match blocks with
  | [] => errorLog
  | currentBlock :: blocks' =>
      let errorLog1 :=
        if negb (Block.validate SHA256 JSON_stringify currentBlock)
        then push errorLog
               ("Block " ++ toString (Z.of_nat i) ++ " validation failed.")
        else errorLog in
      let errorLog2 :=
        if negb (option_string_eqb (Block.previousBlockHash currentBlock)
                                   (Block.hash previousBlock))
        then push errorLog1
               ("Block " ++ toString (Z.of_nat i) ++ " previous hash invalid!")
        else errorLog1 in
      validate_from (S i) currentBlock blocks' errorLog2
  end.

Definition validateChain : Blockchain -> Promise bool * Blockchain :=
  new_Promise_async (
    self <- get ;;
    errorLog <-
      match chain self with
      | [] => resolve true ;; ret []
      | [block0] =>
          ret (if negb (Block.validate SHA256 JSON_stringify block0)
               then ["Block 0 validation failed."] else [])
      | block0 :: blocks => ret (validate_from 1 block0 blocks [])
      end ;;
    if (List.length errorLog =? 0)%nat
    then resolve true
    else reject (ErrorLog errorLog)).

Definition _getLatestBlock (self : Blockchain) : option Block.t :=
  let blockCount := List.length (chain self) in
  if (0 <? blockCount)%nat then nth_error (chain self) (blockCount - 1)
  else None.

Definition _addBlock (now : Z) (block : Block.t)
  : Blockchain -> Promise Block.t * Blockchain :=
  new_Promise_async (
    valid <- await validateChain ;;
    when (negb valid) (reject (Error "Block chain not valid")) ;;
    self <- get ;;
    let block1 :=
      Block.mk (Block.hash block) (Some (Z.of_nat (List.length (chain self))))
        (Block.body block) (Some (timeText now))
        (Block.previousBlockHash block) in
    let newHash := SHA256 (JSON_stringify block1) in
    if truthy newHash then
      let block2 :=
        Block.mk (Some newHash) (Block.height block1) (Block.body block1)
          (Block.time block1) (Block.previousBlockHash block1) in
      let block3 :=
        match _getLatestBlock self with
        | Some latest =>
            Block.mk (Block.hash block2) (Block.height block2)
              (Block.body block2) (Block.time block2) (Block.hash latest)
        | None => block2
        end in
      let chain' := push (chain self) block3 in
      put (mkBlockchain chain' (Z.of_nat (List.length chain'))) ;;
      resolve block3
    else
      reject (Error "Failed to add new block:")).

Definition initializeChain (now : Z) : Blockchain -> Promise unit * Blockchain :=
  async (
    self <- get ;;
    if height self =? -1 then
      let block := Block.create encode (GenesisData "Genesis Block") in
      _ <- await (_addBlock now block) ;;
      ret tt
    else ret tt).

(** [new Blockchain()] once the genesis initialization it starts has run. *)
Definition constructor (now : Z) : Blockchain :=
  snd (initializeChain now (mkBlockchain [] (-1))).

Definition getChainHeight : Blockchain -> Promise Z * Blockchain :=
  new_Promise (self <- get ;; resolve (height self)).

Definition getAllBlocks : Blockchain -> Promise (list Block.t) * Blockchain :=
  new_Promise (self <- get ;; resolve (chain self)).

Definition requestMessageOwnershipVerification (now : Z) (address : string)
  : Blockchain -> Promise string * Blockchain :=
  new_Promise (
    let message := address ++ ":" ++ timeText now ++ ":starRegistry" in
    resolve message).

(** The part of [submitStar] inside [try ... catch]. *)
Definition verify_and_add (now_add : Z) (address message signature star : string)
  : Exec Block.t unit :=
  try_catch (
    isValid <- call (verify message address signature) ;;
    when (Bool.eqb isValid false)
      (reject (Error "Failed message validation.")) ;;
    let block := Block.create encode (StarData address star) in
    newBlock <- await (_addBlock now_add block) ;;
    resolve newBlock)
  (fun error => reject error).

Definition messageTime (message : string) : Number :=
  parseInt (nth_error (split ":" message) 1).

Definition currentTime (now : Z) : Number :=
  parseInt (Some (timeText now)).

(** [now] is the clock when the method starts, [now_add] the clock when
    the block is stamped. *)
Definition submitStar (now now_add : Z) (address message signature star : string)
  : Blockchain -> Promise Block.t * Blockchain :=
  new_Promise_async (
    when (ge (currentTime now) (add (messageTime message) (Num (5 * 60))))
      (reject (Error "Message Expired")) ;;
    verify_and_add now_add address message signature star).

Definition getBlockByHash (hash : string)
  : Blockchain -> Promise (list Block.t) * Blockchain :=
  new_Promise (
    self <- get ;;
    resolve (filter (fun block =>
               option_string_eqb (Block.hash block) (Some hash)) (chain self))).

Definition getBlockByHeight (h : Z)
  : Blockchain -> Promise (option Block.t) * Blockchain :=
  new_Promise (
    self <- get ;;
    resolve (find (fun p =>
               match Block.height p with Some x => x =? h | None => false end)
             (chain self))).

(** The [forEach] of [getStarsByWalletAddress]: [stars] is the array
    filled so far. *)
Fixpoint collect_stars (address : string) (blocks : list Block.t)
    (stars : list Payload) : Exec (list Payload) (list Payload) :=
  match blocks with
  | [] => ret stars
  | oneBlock :: blocks' =>
      stars' <-
        try_catch (
          decodedBody <- call (Block.getBData decode oneBlock) ;;
          if option_string_eqb (owner decodedBody) (Some address)
          then ret (push stars decodedBody)
          else ret stars)
        (fun error => reject error ;; ret stars) ;;
      collect_stars address blocks' stars'
  end.

(** The [async] wrapper takes the state of the promise it returns. *)
Definition getStarsByWalletAddress (address : string)
  : Blockchain -> Promise (list Payload) * Blockchain :=
  new_Promise (
    self <- get ;;
    stars <- collect_stars address (chain self) [] ;;
    resolve stars).

(** ** Derived notions used in the statements *)

(** The array [errorLog] when [validateChain] reaches its last test. *)
Definition errorLog_of (blocks : list Block.t) : list string :=
  match blocks with
  | [] => []
  | [block0] =>
      if negb (Block.validate SHA256 JSON_stringify block0)
      then ["Block 0 validation failed."] else []
  | block0 :: blocks' => validate_from 1 block0 blocks' []
  end.

(** [block] once [_addBlock] has given it its time and its height, which
    is what the digest is taken of. *)
Definition stamped_block (now : Z) (block : Block.t) (self : Blockchain)
  : Block.t :=
  Block.mk (Block.hash block) (Some (Z.of_nat (List.length (chain self))))
    (Block.body block) (Some (timeText now)) (Block.previousBlockHash block).

(** The block [_addBlock] pushes for [block] on ledger [self] at clock
    [now]: stamped, hashed, then linked. *)
Definition stored_block (now : Z) (block : Block.t) (self : Blockchain)
  : Block.t :=
  let block1 := stamped_block now block self in
  Block.mk (Some (SHA256 (JSON_stringify block1)))
    (Block.height block1) (Block.body block1) (Block.time block1)
    match _getLatestBlock self with
    | Some latest => Block.hash latest
    | None => Block.previousBlockHash block1
    end.

(** The ledger after a push of [block]. *)
Definition pushed (self : Blockchain) (block : Block.t) : Blockchain :=
  mkBlockchain (push (chain self) block)
    (Z.of_nat (List.length (push (chain self) block))).

(** The ledgers a program gets from [new Blockchain()] by the methods that
    write: [initializeChain], [_addBlock] on a new block, [submitStar]. *)
Inductive reachable : Blockchain -> Prop :=
| reachable_new : reachable (mkBlockchain [] (-1))
| reachable_initializeChain now self :
    reachable self -> reachable (snd (initializeChain now self))
| reachable_addBlock now data self :
    reachable self ->
    reachable (snd (_addBlock now (Block.create encode data) self))
| reachable_submitStar now now_add address message signature star self :
    reachable self ->
    reachable
      (snd (submitStar now now_add address message signature star self)).

(** Linkage of a chain: every block after the first carries the hash of
    the block before it, every block carries its index as height, and the
    first block has no previous hash. *)
Definition well_linked (blocks : list Block.t) : Prop :=
  (forall i previousBlock currentBlock,
     nth_error blocks i = Some previousBlock ->
     nth_error blocks (S i) = Some currentBlock ->
     Block.previousBlockHash currentBlock = Block.hash previousBlock) /\
  (forall i block,
     nth_error blocks i = Some block ->
     Block.height block = Some (Z.of_nat i)) /\
  (forall block,
     nth_error blocks 0 = Some block ->
     Block.previousBlockHash block = None).

(** The inconsistencies of the block at index [i], as the specification
    words them: one description when its own hash does not validate, one
    when its previous hash is not the hash of the block before it. *)
Definition inconsistencies_at (blocks : list Block.t) (i : nat) : list string :=
  match nth_error blocks (i - 1), nth_error blocks i with
  | Some previousBlock, Some currentBlock =>
      app
        (if Block.validate SHA256 JSON_stringify currentBlock then []
         else ["Block " ++ toString (Z.of_nat i) ++ " validation failed."])
        (if option_string_eqb (Block.previousBlockHash currentBlock)
                              (Block.hash previousBlock) then []
         else ["Block " ++ toString (Z.of_nat i) ++ " previous hash invalid!"])
  | _, _ => []
  end.

(** Every inconsistency of the indices 1 to the end, in order. *)
Definition inconsistencies (blocks : list Block.t) : list string :=
  flat_map (inconsistencies_at blocks) (seq 1 (List.length blocks - 1)).

(** The stars of [address], as the specification words them: the decoded
    payloads whose owner is [address], in chain order. *)
Definition stars_of (address : string) (payloads : list Payload) : list Payload :=
  filter (fun data => option_string_eqb (owner data) (Some address)) payloads.

(** All bodies decoded, when every one of them decodes. *)
Fixpoint decode_all (blocks : list Block.t) : Completion (list Payload) :=
  match blocks with
  | [] => Normal []
  | b :: blocks' =>
      match Block.getBData decode b with
      | Throw e => Throw e
      | Normal data =>
          match decode_all blocks' with
          | Normal l => Normal (data :: l)
          | Throw e => Throw e
          end
      end
  end.

(** What [submitStar] yields once the expiry test has let the message
    through: the signature check starts with the promise not settled. *)
Definition verification_outcome (now_add : Z)
    (address message signature star : string)
  : Blockchain -> Promise Block.t * Blockchain :=
  new_Promise_async (verify_and_add now_add address message signature star).

(** The expiry test of [submitStar]. *)
Definition expired (now : Z) (message : string) : bool :=
  ge (currentTime now) (add (messageTime message) (Num (5 * 60))).

(** What [_addBlock] leaves in the hash field of the blocks it is handed
    new: the digest of the block with its index as height, its body and
    its time, and neither hash nor previous hash. *)
Definition hashed_unlinked (blocks : list Block.t) : Prop :=
  forall i b,
    nth_error blocks i = Some b ->
    Block.hash b =
    Some (SHA256 (JSON_stringify
      (Block.mk None (Some (Z.of_nat i)) (Block.body b) (Block.time b) None))).

End Ledger.

(** ** Sample ledgers *)

Module SampleRun.

(** A new ledger, built at clock 1000000 ms. *)
Definition genesis_only : Blockchain :=
  constructor (ext := Sample.externals) 1000000.

(** The same ledger after one star was accepted at clock 1200000 ms. *)
Definition two_blocks : Blockchain :=
  snd (submitStar (ext := Sample.externals) 1200000 1200001
         "1A1z" "1A1z:1000:starRegistry" "valid" "Vega" genesis_only).

(** The new ledger after somebody rewrote the payload of its block in
    place, through the array that [getAllBlocks] hands out. *)
Definition tampered : Blockchain :=
  mkBlockchain
    (map (fun b => Block.mk (Block.hash b) (Block.height b) "GTampered"
                     (Block.time b) (Block.previousBlockHash b))
       (chain genesis_only))
    (height genesis_only).

(** The two-block ledger with the body of its last block overwritten by
    text that is no encoded payload. *)
Definition garbled : Blockchain :=
  mkBlockchain
    (map (fun b =>
            match Block.height b with
            | Some 1 =>
                Block.mk (Block.hash b) (Block.height b) "not a payload"
                  (Block.time b) (Block.previousBlockHash b)
            | _ => b
            end)
       (chain two_blocks))
    (height two_blocks).

(** A block for a second star. *)
Definition sirius : Block.t :=
  Block.create Sample.encode (StarData "1A1z" "Sirius").

(** Two blocks whose hashes cover their final fields, the second linked
    to the first: a chain that [validateChain] accepts. *)
Definition consistent_pair : list Block.t :=
  let seal b :=
    Block.mk (Some (Sample.SHA256 (Sample.JSON_stringify b)))
      (Block.height b) (Block.body b) (Block.time b)
      (Block.previousBlockHash b) in
  let block0 :=
    seal (Block.mk None (Some 0) "GGenesis Block" (Some "1000") None) in
  let block1 :=
    seal (Block.mk None (Some 1) "S1A1z:Vega" (Some "1200")
            (Block.hash block0)) in
  [block0; block1].

(** The same pair with the payload of its first block rewritten. *)
Definition consistent_pair_tampered : list Block.t :=
  match consistent_pair with
  | block0 :: blocks =>
      Block.mk (Block.hash block0) (Block.height block0) "GTampered"
        (Block.time block0) (Block.previousBlockHash block0) :: blocks
  | [] => []
  end.

End SampleRun.

(** * Properties *)

Section Facts.

Context {ext : Externals}.

(** ** The JavaScript primitives on examples *)

Example toString_clock : toString 1700000000123 = "1700000000123".
Proof. reflexivity. Qed.

Example timeText_clock : timeText 1700000000123 = "1700000000".
Proof. reflexivity. Qed.

Example timeText_first_second : timeText 999 = "".
Proof. reflexivity. Qed.

Example split_message :
  split ":" "1A1z:1700000000:starRegistry" =
  ["1A1z"; "1700000000"; "starRegistry"].
Proof. reflexivity. Qed.

Example split_without_separator : split ":" "1A1z" = ["1A1z"].
Proof. reflexivity. Qed.

Example parseInt_examples :
  parseInt (Some "1700000000") = Num 1700000000 /\
  parseInt (Some " 42abc") = Num 42 /\
  parseInt (Some "-7") = Num (-7) /\
  parseInt (Some "0x1f") = Num 31 /\
  parseInt (Some "starRegistry") = NaN /\
  parseInt (Some "") = NaN /\
  parseInt None = NaN.
Proof. repeat split; reflexivity. Qed.

Example ge_NaN : ge (Num 1700000000) (add NaN (Num 300)) = false.
Proof. reflexivity. Qed.

(** ** Decimal text of the clock *)

Lemma append_assoc (s t u : string) : (s ++ t) ++ u = s ++ (t ++ u).
Proof. induction s as [|c s IH]; cbn; [reflexivity | now rewrite IH]. Qed.

Lemma append_empty_r (s : string) : s ++ "" = s.
Proof. induction s as [|c s IH]; cbn; [reflexivity | now rewrite IH]. Qed.

Lemma length_append (s t : string) :
  String.length (s ++ t) = (String.length s + String.length t)%nat.
Proof. induction s as [|c s IH]; cbn; [reflexivity | now rewrite IH]. Qed.

Lemma substring_prefix (s t : string) :
  substring 0 (String.length s) (s ++ t) = s.
Proof.
  induction s as [|c s IH]; cbn.
  - destruct t; reflexivity.
  - now rewrite IH.
Qed.

Lemma slice_0_neg_append (k : nat) (s t : string) :
  String.length t = k -> slice_0_neg k (s ++ t) = s.
Proof.
  intros <-. unfold slice_0_neg. rewrite length_append.
  replace (String.length s + String.length t - String.length t)%nat
    with (String.length s) by lia.
  apply substring_prefix.
Qed.

Lemma digits_fuel_S (fuel : nat) (n : Z) (acc : string) :
  digits_fuel (S fuel) n acc =
  if n / 10 =? 0 then String (digit_char (n mod 10)) acc
  else digits_fuel fuel (n / 10) (String (digit_char (n mod 10)) acc).
Proof. reflexivity. Qed.

Lemma digits_fuel_acc (fuel : nat) : forall (n : Z) (acc : string),
  digits_fuel fuel n acc = digits_fuel fuel n "" ++ acc.
Proof.
  induction fuel as [|fuel IH]; intros n acc.
  - reflexivity.
  - rewrite !digits_fuel_S.
    destruct (n / 10 =? 0); [reflexivity|].
    rewrite IH, (IH _ (String _ "")), append_assoc. reflexivity.
Qed.

Lemma digits_fuel_enough (f1 : nat) : forall (f2 : nat) (n : Z) (acc : string),
  0 <= n < 10 ^ Z.of_nat f1 -> (1 <= f1 <= f2)%nat ->
  digits_fuel f1 n acc = digits_fuel f2 n acc.
Proof.
  induction f1 as [|f1 IH]; intros f2 n acc Hn Hf; [lia|].
  destruct f2 as [|f2]; [lia|]. rewrite !digits_fuel_S.
  destruct (n / 10 =? 0) eqn:E; [reflexivity|].
  apply Z.eqb_neq in E.
  assert (Hq : 0 <= n / 10 < 10 ^ Z.of_nat f1).
  { split; [apply Z.div_pos; lia|].
    apply Z.div_lt_upper_bound; [lia|].
    rewrite Nat2Z.inj_succ, Z.pow_succ_r in Hn; lia. }
  apply IH; [exact Hq|].
  destruct f1; [cbn in Hq; lia | lia].
Qed.

Lemma digits_fuel_bound (n : Z) :
  0 <= n -> 0 <= n < 10 ^ Z.of_nat (S (Z.to_nat (Z.log2 n))).
Proof.
  intros Hn. split; [exact Hn|].
  rewrite Nat2Z.inj_succ, Z2Nat.id by apply Z.log2_nonneg.
  destruct (Z.eq_dec n 0) as [->|Hz]; [cbn; lia|].
  apply Z.lt_le_trans with (2 ^ Z.succ (Z.log2 n)).
  - apply Z.log2_spec; lia.
  - apply Z.pow_le_mono_l. lia.
Qed.

Lemma digits_step (n : Z) :
  10 <= n ->
  digits n = digits (n / 10) ++ String (digit_char (n mod 10)) "".
Proof.
  intros Hn. unfold digits at 1. rewrite digits_fuel_S.
  assert (Hq : 1 <= n / 10) by (apply Z.div_le_lower_bound; lia).
  destruct (n / 10 =? 0) eqn:E; [apply Z.eqb_eq in E; lia|].
  rewrite digits_fuel_acc. f_equal. unfold digits. symmetry.
  apply digits_fuel_enough; [apply digits_fuel_bound; lia|].
  split; [lia|].
  assert (Z.log2 (n / 10) + 1 <= Z.log2 n).
  { apply Z.log2_le_pow2; [lia|].
    rewrite Z.pow_add_r by (try apply Z.log2_nonneg; lia).
    pose proof (Z.log2_spec (n / 10) ltac:(lia)) as [Hlo _].
    pose proof (Z.mul_div_le n 10 ltac:(lia)). lia. }
  pose proof (Z.log2_nonneg (n / 10)). lia.
Qed.

Lemma timeText_seconds (now : Z) :
  1000 <= now -> timeText now = toString (now / 1000).
Proof.
  intros Hn. unfold timeText, toString.
  assert (H1 : 100 <= now / 10) by (apply Z.div_le_lower_bound; lia).
  assert (H2 : 10 <= now / 10 / 10) by (apply Z.div_le_lower_bound; lia).
  assert (H3 : 1 <= now / 10 / 10 / 10) by (apply Z.div_le_lower_bound; lia).
  replace (now / 1000) with (now / 10 / 10 / 10)
    by (rewrite !Z.div_div by lia; reflexivity).
  destruct (now <? 0) eqn:E1; [apply Z.ltb_lt in E1; lia|].
  destruct (now / 10 / 10 / 10 <? 0) eqn:E2; [apply Z.ltb_lt in E2; lia|].
  rewrite (digits_step now), (digits_step (now / 10)),
    (digits_step (now / 10 / 10)) by lia.
  rewrite !append_assoc. apply slice_0_neg_append. reflexivity.
Qed.

(** ** Reading the clock text back *)

Lemma digit_value_digit_char (d : Z) :
  0 <= d < 10 -> digit_value 10 (digit_char d) = Some d.
Proof.
  intros Hd.
  assert (H : d = 0 \/ d = 1 \/ d = 2 \/ d = 3 \/ d = 4 \/
              d = 5 \/ d = 6 \/ d = 7 \/ d = 8 \/ d = 9) by lia.
  repeat (destruct H as [->|H]; [reflexivity|]). now subst d.
Qed.

Lemma is_decimal_append (s t : string) :
  is_decimal (s ++ t) = is_decimal s && is_decimal t.
Proof.
  induction s as [|c s IH]; cbn -[digit_value]; [reflexivity|].
  destruct (digit_value 10 c); [exact IH | reflexivity].
Qed.

Lemma parse_digits_append (s t : string) : forall acc,
  is_decimal s = true ->
  parse_digits 10 (s ++ t) acc = parse_digits 10 t (parse_digits 10 s acc).
Proof.
  induction s as [|c s IH]; intros acc Hs; cbn -[digit_value Z.mul] in *.
  - reflexivity.
  - destruct (digit_value 10 c); [now apply IH | discriminate Hs].
Qed.

Lemma digits_small (n : Z) :
  0 <= n < 10 -> digits n = String (digit_char n) "".
Proof.
  intros Hn. unfold digits. rewrite digits_fuel_S.
  rewrite Z.div_small, Z.mod_small by lia. reflexivity.
Qed.

Lemma digits_decimal (n : Z) :
  0 <= n -> is_decimal (digits n) = true /\
            parse_digits 10 (digits n) None = Some n.
Proof.
  intros Hn. pattern n. apply Zlt_0_ind; [|exact Hn].
  clear n Hn. intros n IH Hn.
  destruct (Z_lt_le_dec n 10) as [Hsmall|Hbig].
  - rewrite digits_small by lia. cbn -[digit_value digit_char Z.mul].
    rewrite digit_value_digit_char by lia. split; [reflexivity|].
    f_equal.
  - rewrite digits_step by exact Hbig.
    assert (Hq : 0 <= n / 10 < n).
    { split; [apply Z.div_pos; lia | apply Z.div_lt; lia]. }
    destruct (IH (n / 10) Hq) as [Hdec Hval].
    assert (Hr : 0 <= n mod 10 < 10) by (apply Z.mod_pos_bound; lia).
    split.
    + rewrite is_decimal_append, Hdec. cbn -[digit_value digit_char].
      now rewrite digit_value_digit_char.
    + rewrite parse_digits_append, Hval by exact Hdec.
      cbn -[digit_value digit_char Z.mul]. rewrite digit_value_digit_char by exact Hr.
      f_equal. pose proof (Z.div_mod n 10 ltac:(lia)). lia.
Qed.

Lemma decimal_head (c : ascii) :
  digit_value 10 c <> None ->
  is_white_space c = false /\ c <> "-"%char /\ c <> "+"%char /\
  c <> "x"%char /\ c <> "X"%char.
Proof.
  destruct c as [[] [] [] [] [] [] [] []]; intros H;
    try (now elim H); repeat split; discriminate.
Qed.

Lemma parseInt_string_decimal (s : string) :
  is_decimal s = true ->
  parseInt_string s =
  match parse_digits 10 s None with Some v => Num v | None => NaN end.
Proof.
  intros Hs. destruct s as [|c s]; [reflexivity|].
  cbn -[digit_value] in Hs.
  destruct (digit_value 10 c) as [d|] eqn:Ec; [|discriminate Hs].
  destruct (decimal_head c) as (Hws & Hminus & Hplus & _);
    [congruence|].
  unfold parseInt_string. cbn [skip_white_space]. rewrite Hws.
  assert (Hsign : strip_sign (String c s) = (1, String c s)).
  { unfold strip_sign.
    destruct c as [[] [] [] [] [] [] [] []]; try reflexivity;
      [now elim Hplus | now elim Hminus]. }
  rewrite Hsign.
  assert (Hhex : strip_hex_prefix (String c s) = (10, String c s)).
  { unfold strip_hex_prefix. destruct s as [|c2 s]; [now destruct c as [[] [] [] [] [] [] [] []]|].
    cbn -[digit_value] in Hs.
    destruct (digit_value 10 c2) as [d2|] eqn:Ec2; [|discriminate Hs].
    destruct (decimal_head c2) as (_ & _ & _ & Hx & HX); [congruence|].
    destruct c as [[] [] [] [] [] [] [] []]; try reflexivity.
    destruct c2 as [[] [] [] [] [] [] [] []]; try reflexivity;
      [now elim HX | now elim Hx]. }
  rewrite Hhex.
  destruct (parse_digits 10 (String c s) None) as [v|]; [|reflexivity].
  f_equal. lia.
Qed.

Lemma parseInt_toString (n : Z) :
  0 <= n -> parseInt (Some (toString n)) = Num n.
Proof.
  intros Hn. unfold parseInt, toString.
  destruct (n <? 0) eqn:E; [apply Z.ltb_lt in E; lia|].
  destruct (digits_decimal n Hn) as [Hdec Hval].
  now rewrite parseInt_string_decimal, Hval by exact Hdec.
Qed.

Lemma currentTime_seconds (now : Z) :
  1000 <= now -> currentTime now = Num (now / 1000).
Proof.
  intros Hn. unfold currentTime. rewrite timeText_seconds by exact Hn.
  apply parseInt_toString. apply Z.div_pos; lia.
Qed.

(** ** The timestamp field of a message *)

Lemma split_aux_no_separator (sep : ascii) (s : string) : forall cur,
  includes sep s = false -> split_aux sep s cur = [cur ++ s].
Proof.
  induction s as [|c s IH]; intros cur H; cbn in *.
  - now rewrite append_empty_r.
  - apply orb_false_iff in H as [Hc Hs]. rewrite Hc, (IH _ Hs), append_assoc.
    reflexivity.
Qed.

Lemma split_aux_field (sep : ascii) (s t : string) : forall cur,
  includes sep s = false ->
  split_aux sep (s ++ String sep t) cur = (cur ++ s) :: split_aux sep t "".
Proof.
  induction s as [|c s IH]; intros cur H; cbn in *.
  - now rewrite Ascii.eqb_refl, append_empty_r.
  - apply orb_false_iff in H as [Hc Hs]. rewrite Hc, (IH _ Hs), append_assoc.
    reflexivity.
Qed.

Lemma is_decimal_no_colon (s : string) :
  is_decimal s = true -> includes ":" s = false.
Proof.
  induction s as [|c s IH]; intros H; cbn -[digit_value] in *; [reflexivity|].
  destruct (digit_value 10 c) eqn:Ec; [|discriminate H].
  rewrite (IH H), orb_false_r.
  destruct (Ascii.eqb_spec c ":"); [subst c; discriminate Ec | reflexivity].
Qed.

Lemma messageTime_no_colon (message : string) :
  includes ":" message = false -> messageTime message = NaN.
Proof.
  intros H. unfold messageTime, split.
  now rewrite split_aux_no_separator by exact H.
Qed.

(** The message issued for [address] at second [t] carries [t] as its
    timestamp, provided the address holds no colon. *)
Lemma messageTime_issued (address : string) (t : Z) :
  includes ":" address = false -> 0 <= t ->
  messageTime (address ++ ":" ++ toString t ++ ":starRegistry") = Num t.
Proof.
  intros Ha Ht. unfold messageTime, split.
  change (address ++ ":" ++ toString t ++ ":starRegistry")
    with (address ++ String ":" (toString t ++ String ":" "starRegistry")).
  rewrite split_aux_field by exact Ha.
  assert (Hdec : is_decimal (toString t) = true).
  { unfold toString. destruct (t <? 0) eqn:E; [apply Z.ltb_lt in E; lia|].
    now apply digits_decimal. }
  rewrite split_aux_field by now apply is_decimal_no_colon.
  cbn [nth_error append]. now apply parseInt_toString.
Qed.

(** ** Running the executors *)

Lemma validateChain_eq (self : Blockchain) :
  validateChain self =
  (match errorLog_of (chain self) with
   | [] => Fulfilled true
   | errorLog => Rejected (ErrorLog errorLog)
   end, self).
Proof.
  unfold validateChain, new_Promise_async, errorLog_of.
  destruct self as [[|block0 [|block1 blocks]] h]; cbn.
  - reflexivity.
  - destruct (Block.validate SHA256 JSON_stringify block0); reflexivity.
  - unfold bind, get, ret; cbn.
    destruct (validate_from _ _ _ _); reflexivity.
Qed.

Lemma _addBlock_eq (now : Z) (block : Block.t) (self : Blockchain) :
  _addBlock now block self =
  match errorLog_of (chain self) with
  | [] =>
      if truthy (SHA256 (JSON_stringify (stamped_block now block self)))
      then (Fulfilled (stored_block now block self),
            pushed self (stored_block now block self))
      else (Rejected (Error "Failed to add new block:"), self)
  | _ => (Pending, self)
  end.
Proof.
  unfold _addBlock, new_Promise_async, bind, await.
  rewrite validateChain_eq.
  destruct (errorLog_of (chain self)); [|reflexivity].
  cbn. unfold stored_block, pushed.
  fold (stamped_block now block self).
  destruct (truthy _); [|reflexivity].
  destruct (_getLatestBlock self); reflexivity.
Qed.

Lemma verification_outcome_eq (now_add : Z)
    (address message signature star : string) (self : Blockchain) :
  verification_outcome now_add address message signature star self =
  match verify message address signature with
  | Throw e => (Rejected e, self)
  | Normal isValid =>
      let '(q, self') :=
        _addBlock now_add (Block.create encode (StarData address star)) self in
      (if isValid then q else Rejected (Error "Failed message validation."),
       self')
  end.
Proof.
  unfold verification_outcome, new_Promise_async, verify_and_add,
    try_catch, bind, call, await, when.
  destruct (verify message address signature) as [[|]|e]; cbn;
    try reflexivity;
    destruct (_addBlock _ _ self) as [[b|e|] self']; reflexivity.
Qed.

Lemma submitStar_eq (now now_add : Z)
    (address message signature star : string) (self : Blockchain) :
  submitStar now now_add address message signature star self =
  let '(q, self') :=
    verification_outcome now_add address message signature star self in
  (if expired now message then Rejected (Error "Message Expired") else q,
   self').
Proof.
  unfold submitStar. fold (expired now message).
  rewrite verification_outcome_eq.
  unfold new_Promise_async, verify_and_add, try_catch, bind, call, await, when.
  destruct (expired now message);
    destruct (verify message address signature) as [[|]|e]; cbn;
    try reflexivity;
    destruct (_addBlock _ _ self) as [[b|e|] self']; reflexivity.
Qed.

(** ** Challenge message *)

(** C9: [requestMessageOwnershipVerification] never fails: at every clock
    reading [now] of at least one second and for every address it is
    fulfilled with exactly [address:seconds:starRegistry], where [seconds]
    is the decimal text of the clock in whole seconds; the message depends
    on the clock and the address only, and the ledger is left as it was. *)
Theorem requestMessageOwnershipVerification_message
    (now : Z) (address : string) (self : Blockchain) :
  1000 <= now ->
  requestMessageOwnershipVerification now address self =
  (Fulfilled (address ++ ":" ++ toString (now / 1000) ++ ":starRegistry"),
   self).
Proof.
  intros Hnow. unfold requestMessageOwnershipVerification, new_Promise.
  cbn. rewrite timeText_seconds by exact Hnow. reflexivity.
Qed.

(** ** Chain validation *)

Lemma nth_error_middle (pre : list Block.t) (b : Block.t) (post : list Block.t) :
  nth_error (pre ++ b :: post)%list (List.length pre) = Some b.
Proof. induction pre as [|x pre IH]; cbn; [reflexivity | exact IH]. Qed.

Lemma nth_error_middle_S (pre : list Block.t) (a b : Block.t)
    (post : list Block.t) :
  nth_error (pre ++ a :: b :: post)%list (S (List.length pre)) = Some b.
Proof. induction pre as [|x pre IH]; cbn; [reflexivity | exact IH]. Qed.

Lemma validate_from_inconsistencies (blocks : list Block.t) :
  forall (pre : list Block.t) (previousBlock : Block.t) (errorLog : list string),
  validate_from (S (List.length pre)) previousBlock blocks errorLog =
  (errorLog ++
   flat_map (inconsistencies_at (pre ++ previousBlock :: blocks))
     (seq (S (List.length pre)) (List.length blocks)))%list.
Proof.
  induction blocks as [|currentBlock blocks IH]; intros pre previousBlock errorLog.
  - cbn. now rewrite app_nil_r.
  - cbn [validate_from List.length seq flat_map].
    specialize (IH (pre ++ [previousBlock])%list currentBlock).
    rewrite length_app in IH. cbn [List.length] in IH.
    replace (List.length pre + 1)%nat with (S (List.length pre)) in IH by lia.
    rewrite IH. rewrite <- app_assoc. cbn [app].
    unfold inconsistencies_at at 2.
    replace (S (List.length pre) - 1)%nat with (List.length pre) by lia.
    rewrite nth_error_middle, nth_error_middle_S.
    unfold push.
    destruct (Block.validate SHA256 JSON_stringify currentBlock);
      destruct (option_string_eqb _ _); cbn [negb app];
      rewrite <- ?app_assoc; reflexivity.
Qed.

(** C6: [validateChain] never changes the ledger and is fulfilled with
    [true] on an empty chain; on a chain of one block it is fulfilled
    exactly when that block validates; on a longer chain it is
    fulfilled when the indices 1 to the end show no inconsistency (own
    hash that does not validate, previous hash that is not the hash of
    the block before), and is otherwise rejected with the list of every
    such inconsistency in index order. *)
Theorem validateChain_complete (self : Blockchain) :
  validateChain self =
  (match chain self with
   | [] => Fulfilled true
   | [block0] =>
       if Block.validate SHA256 JSON_stringify block0 then Fulfilled true
       else Rejected (ErrorLog ["Block 0 validation failed."])
   | _ =>
       match inconsistencies (chain self) with
       | [] => Fulfilled true
       | errorLog => Rejected (ErrorLog errorLog)
       end
   end, self).
Proof.
  rewrite validateChain_eq. f_equal.
  destruct (chain self) as [|block0 [|block1 blocks]]; cbn [errorLog_of].
  - reflexivity.
  - destruct (Block.validate SHA256 JSON_stringify block0); reflexivity.
  - change (validate_from 1 block0 (block1 :: blocks) [])
      with (validate_from (S (List.length (@nil Block.t))) block0
              (block1 :: blocks) []).
    rewrite validate_from_inconsistencies.
    unfold inconsistencies. cbn [List.length app Nat.sub]. reflexivity.
Qed.

(** ** Stars of a wallet *)

Lemma decode_all_Normal (blocks : list Block.t) : forall payloads,
  map (fun b => decode (Block.body b)) blocks = map Some payloads ->
  decode_all blocks = Normal payloads.
Proof.
  induction blocks as [|b blocks IH]; intros [|data payloads] H;
    try discriminate H; [reflexivity|].
  cbn in H. injection H as Hb Hrest.
  cbn. unfold Block.getBData. rewrite Hb, (IH _ Hrest). reflexivity.
Qed.

Lemma decode_all_Throw (blocks : list Block.t) (b : Block.t) :
  In b blocks -> decode (Block.body b) = None ->
  exists bad, decode bad = None /\ decode_all blocks = Throw (DecodeError bad).
Proof.
  induction blocks as [|x blocks IH]; intros Hin Hb; [destruct Hin|].
  cbn. unfold Block.getBData.
  destruct (decode (Block.body x)) as [data|] eqn:Ex.
  - destruct Hin as [->|Hin]; [congruence|].
    destruct (IH Hin Hb) as [bad [Hbad ->]]. now exists bad.
  - now exists (Block.body x).
Qed.

Lemma collect_stars_run (address : string) (blocks : list Block.t) :
  forall (stars : list Payload) (self : Blockchain) (p : Promise (list Payload)),
  exists stars',
    collect_stars address blocks stars self p =
    (Return stars', self,
     match decode_all blocks with
     | Normal _ => p
     | Throw e => match p with Pending => Rejected e | _ => p end
     end) /\
    (forall payloads, decode_all blocks = Normal payloads ->
       stars' = (stars ++ stars_of address payloads)%list).
Proof.
  induction blocks as [|b blocks IH]; intros stars self p.
  - exists stars. split; [reflexivity|].
    intros payloads H. injection H as <-. cbn. now rewrite app_nil_r.
  - cbn [collect_stars decode_all]. unfold bind at 1, try_catch, bind, call.
    destruct (Block.getBData decode b) as [data|e]; cbn.
    + destruct (IH (if option_string_eqb (owner data) (Some address)
                    then push stars data else stars) self p)
        as [stars' [Hrun Hstars]].
      exists stars'. split.
      * destruct (option_string_eqb (owner data) (Some address)); cbn;
          rewrite Hrun; destruct (decode_all blocks); reflexivity.
      * intros payloads H. destruct (decode_all blocks) as [l|e];
          [|discriminate H].
        injection H as <-. rewrite (Hstars l eq_refl). cbn.
        destruct (option_string_eqb (owner data) (Some address));
          [unfold push; now rewrite <- app_assoc | reflexivity].
    + destruct (IH stars self
                  (match p with Pending => Rejected e | _ => p end))
        as [stars' [Hrun _]].
      exists stars'. split; [|intros payloads H; discriminate H].
      unfold reject, settle, ret. rewrite Hrun.
      destruct (decode_all blocks); destruct p; reflexivity.
Qed.

Lemma getStarsByWalletAddress_eq (address : string) (self : Blockchain) :
  getStarsByWalletAddress address self =
  (match decode_all (chain self) with
   | Normal payloads => Fulfilled (stars_of address payloads)
   | Throw e => Rejected e
   end, self).
Proof.
  unfold getStarsByWalletAddress, new_Promise, bind at 1, get.
  unfold bind.
  destruct (collect_stars_run address (chain self) [] self Pending)
    as [stars' [Hrun Hstars]].
  rewrite Hrun.
  destruct (decode_all (chain self)) as [payloads|e]; cbn; [|reflexivity].
  now rewrite (Hstars payloads eq_refl).
Qed.

(** C8: [getStarsByWalletAddress] goes through every block of the chain.
    When every body decodes, it is fulfilled with exactly the decoded
    payloads whose owner is the address, in chain order; when the body of
    some block does not decode, it is rejected with a decode error and no
    list is returned. The ledger is left as it was. *)
Theorem getStarsByWalletAddress_strict (address : string) (self : Blockchain) :
  (forall payloads,
     map (fun b => decode (Block.body b)) (chain self) = map Some payloads ->
     getStarsByWalletAddress address self =
     (Fulfilled (stars_of address payloads), self)) /\
  (forall b,
     In b (chain self) -> decode (Block.body b) = None ->
     exists bad,
       decode bad = None /\
       getStarsByWalletAddress address self = (Rejected (DecodeError bad), self)).
Proof.
  split.
  - intros payloads H. rewrite getStarsByWalletAddress_eq.
    now rewrite (decode_all_Normal _ _ H).
  - intros b Hin Hb. rewrite getStarsByWalletAddress_eq.
    destruct (decode_all_Throw _ _ Hin Hb) as [bad [Hbad ->]].
    now exists bad.
Qed.

(** ** What the writing methods do to the ledger *)

Lemma _addBlock_ledger (now : Z) (block : Block.t) (self : Blockchain) :
  snd (_addBlock now block self) = self \/
  (errorLog_of (chain self) = [] /\
   snd (_addBlock now block self) = pushed self (stored_block now block self)).
Proof.
  rewrite _addBlock_eq.
  destruct (errorLog_of (chain self)); [|now left].
  destruct (truthy _); [now right | now left].
Qed.

Lemma verification_outcome_ledger (now_add : Z)
    (address message signature star : string) (self : Blockchain) :
  snd (verification_outcome now_add address message signature star self) = self \/
  exists isValid,
    verify message address signature = Normal isValid /\
    snd (verification_outcome now_add address message signature star self) =
    snd (_addBlock now_add (Block.create encode (StarData address star)) self).
Proof.
  rewrite verification_outcome_eq.
  destruct (verify message address signature) as [isValid|e]; [|now left].
  right. exists isValid. split; [reflexivity|].
  destruct (_addBlock _ _ self); reflexivity.
Qed.

Lemma submitStar_ledger (now now_add : Z)
    (address message signature star : string) (self : Blockchain) :
  snd (submitStar now now_add address message signature star self) =
  snd (verification_outcome now_add address message signature star self).
Proof.
  rewrite submitStar_eq.
  destruct (verification_outcome _ _ _ _ _ self); reflexivity.
Qed.

Lemma initializeChain_ledger (now : Z) (self : Blockchain) :
  snd (initializeChain now self) = self \/
  snd (initializeChain now self) =
  snd (_addBlock now (Block.create encode (GenesisData "Genesis Block")) self).
Proof.
  unfold initializeChain, async, bind, get, await.
  destruct (height self =? -1); [|now left].
  right. destruct (_addBlock _ _ self) as [[b|e|] self']; reflexivity.
Qed.

(** ** Linkage *)

Lemma well_linked_push (now : Z) (data : Payload) (self : Blockchain) :
  well_linked (chain self) ->
  well_linked
    (push (chain self) (stored_block now (Block.create encode data) self)).
Proof.
  intros (Hprev & Hheight & Hfirst).
  set (sb := stored_block now (Block.create encode data) self).
  assert (Hnth : forall i,
    nth_error (push (chain self) sb) i =
    if (i <? List.length (chain self))%nat then nth_error (chain self) i
    else if (i =? List.length (chain self))%nat then Some sb else None).
  { intros i. unfold push.
    destruct (i <? List.length (chain self))%nat eqn:E.
    - apply Nat.ltb_lt in E. now apply nth_error_app1.
    - apply Nat.ltb_ge in E. rewrite nth_error_app2 by exact E.
      destruct (i =? List.length (chain self))%nat eqn:E'.
      + apply Nat.eqb_eq in E'. subst i. now rewrite Nat.sub_diag.
      + apply Nat.eqb_neq in E'.
        destruct (i - List.length (chain self))%nat as [|k] eqn:Ek; [lia|].
        cbn. now destruct k. }
  repeat split.
  - intros i previousBlock currentBlock. rewrite !Hnth.
    destruct (S i <? List.length (chain self))%nat eqn:E1.
    + apply Nat.ltb_lt in E1.
      replace (i <? List.length (chain self))%nat with true
        by (symmetry; apply Nat.ltb_lt; lia).
      apply Hprev.
    + destruct (S i =? List.length (chain self))%nat eqn:E2;
        [|intros _ H; discriminate H].
      apply Nat.eqb_eq in E2.
      replace (i <? List.length (chain self))%nat with true
        by (symmetry; apply Nat.ltb_lt; lia).
      intros Hi H. injection H as <-.
      unfold sb, stored_block, _getLatestBlock.
      replace (0 <? List.length (chain self))%nat with true
        by (symmetry; apply Nat.ltb_lt; lia).
      replace (List.length (chain self) - 1)%nat with i by lia.
      now rewrite Hi.
  - intros i block. rewrite Hnth.
    destruct (i <? List.length (chain self))%nat; [apply Hheight|].
    destruct (i =? List.length (chain self))%nat eqn:E;
      [|intros H; discriminate H].
    apply Nat.eqb_eq in E. intros H. injection H as <-. now subst i.
  - intros block. rewrite Hnth.
    destruct (0 <? List.length (chain self))%nat eqn:E; [apply Hfirst|].
    destruct (0 =? List.length (chain self))%nat; [|intros H; discriminate H].
    intros H. injection H as <-.
    unfold sb, stored_block, _getLatestBlock. now rewrite E.
Qed.

Lemma well_linked_addBlock (now : Z) (data : Payload) (self : Blockchain) :
  well_linked (chain self) ->
  well_linked (chain (snd (_addBlock now (Block.create encode data) self))).
Proof.
  intros H.
  destruct (_addBlock_ledger now (Block.create encode data) self)
    as [->|[_ ->]]; [exact H|].
  now apply well_linked_push.
Qed.

Lemma reachable_well_linked (self : Blockchain) :
  reachable self -> well_linked (chain self).
Proof.
  induction 1 as [|now self _ IH|now data self _ IH
                 |now now_add address message signature star self _ IH].
  - repeat split; cbn.
    + intros [|i] ? ? H; discriminate H.
    + intros [|i] ? H; discriminate H.
    + intros ? H; discriminate H.
  - destruct (initializeChain_ledger now self) as [->| ->]; [exact IH|].
    now apply well_linked_addBlock.
  - now apply well_linked_addBlock.
  - rewrite submitStar_ledger.
    destruct (verification_outcome_ledger now_add address message signature
                star self) as [->|[isValid [_ ->]]]; [exact IH|].
    now apply well_linked_addBlock.
Qed.

(** C4: in every ledger reached from a new one by the writing methods,
    each block at an index [i > 0] has the hash of the block at [i - 1] as
    its previous hash and [i] as its height, and the block at index 0 has
    no previous hash and height 0. *)
Theorem reachable_linkage (self : Blockchain) :
  reachable self ->
  (forall i previousBlock currentBlock,
     (0 < i)%nat ->
     nth_error (chain self) (i - 1) = Some previousBlock ->
     nth_error (chain self) i = Some currentBlock ->
     Block.previousBlockHash currentBlock = Block.hash previousBlock /\
     Block.height currentBlock = Some (Z.of_nat i)) /\
  (forall genesis,
     nth_error (chain self) 0 = Some genesis ->
     Block.previousBlockHash genesis = None /\
     Block.height genesis = Some 0).
Proof.
  intros H. destruct (reachable_well_linked self H) as (Hprev & Hheight & Hfirst).
  split.
  - intros i previousBlock currentBlock Hi Hp Hc.
    destruct i as [|i]; [lia|].
    replace (S i - 1)%nat with i in Hp by lia.
    split; [exact (Hprev i _ _ Hp Hc) | exact (Hheight _ _ Hc)].
  - intros genesis Hg. split; [exact (Hfirst _ Hg) | exact (Hheight _ _ Hg)].
Qed.

(** ** Appending *)

Lemma validateChain_Fulfilled (self : Blockchain) :
  fst (validateChain self) = Fulfilled true <-> errorLog_of (chain self) = [].
Proof.
  rewrite validateChain_eq. cbn.
  destruct (errorLog_of (chain self)); split; intros H;
    try reflexivity; discriminate H.
Qed.

(** C5 (what the code does instead): [_addBlock] validates the whole
    existing chain before it takes the new block, and when that validation
    reports inconsistencies the block is not added and the ledger is left
    as it was; but the call does not fail: [validateChain] rejects, the
    [await] throws inside the executor, [reject] is never reached and the
    promise of [_addBlock] stays pending, with no error and no error
    list. *)
Theorem _addBlock_pending_on_invalid_chain
    (now : Z) (block : Block.t) (self : Blockchain) (errorLog : list string) :
  fst (validateChain self) = Rejected (ErrorLog errorLog) ->
  _addBlock now block self = (Pending, self).
Proof.
  intros H. rewrite _addBlock_eq.
  rewrite validateChain_eq in H. cbn [fst] in H.
  destruct (errorLog_of (chain self)); [discriminate H | reflexivity].
Qed.

(** C2 (what the code does instead): on a chain that is not empty, the
    block stored by [_addBlock] gets the hash of the latest block as its
    previous hash, but its own hash is the digest of the block as it was
    before that assignment, with no previous hash; so [validate], which
    recomputes the digest over the final fields, fails on the stored block
    as soon as the digest tells the two renderings apart. *)
Theorem _addBlock_hash_omits_previousBlockHash
    (now : Z) (data : Payload) (self self' : Blockchain)
    (latest b : Block.t) :
  _getLatestBlock self = Some latest ->
  _addBlock now (Block.create encode data) self = (Fulfilled b, self') ->
  Block.previousBlockHash b = Block.hash latest /\
  Block.hash b =
    Some (SHA256 (JSON_stringify
       (Block.mk None (Block.height b) (Block.body b) (Block.time b) None))) /\
  (SHA256 (JSON_stringify
     (Block.mk None (Block.height b) (Block.body b) (Block.time b)
        (Block.hash latest))) <>
   SHA256 (JSON_stringify
     (Block.mk None (Block.height b) (Block.body b) (Block.time b) None)) ->
   Block.validate SHA256 JSON_stringify b = false).
Proof.
  intros Hlatest Hadd. rewrite _addBlock_eq in Hadd.
  destruct (errorLog_of (chain self)); [|discriminate Hadd].
  destruct (truthy _); [|discriminate Hadd].
  injection Hadd as <- _.
  unfold stored_block, stamped_block. rewrite Hlatest. cbn.
  repeat split.
  intros Hneq. unfold Block.validate. cbn.
  apply String.eqb_neq. intros E. apply Hneq. now rewrite E.
Qed.

(** ** Height *)

(** C3 (what the code does instead): once the genesis initialization of a
    new ledger has run and the digest is a non-empty string, the chain
    holds exactly one block and [getChainHeight] is fulfilled with 1, the
    length of the chain, not with 0. *)
Theorem constructor_height (now : Z) :
  (forall s, truthy (SHA256 s) = true) ->
  List.length (chain (constructor now)) = 1%nat /\
  getChainHeight (constructor now) = (Fulfilled 1, constructor now).
Proof.
  intros Htruthy. unfold constructor, initializeChain, async, bind, get, await.
  cbn [height Z.eqb Pos.eqb Z.opp]. rewrite _addBlock_eq. cbn [chain errorLog_of].
  rewrite Htruthy. cbn. split; reflexivity.
Qed.

Lemma reachable_height (self : Blockchain) :
  reachable self ->
  height self = match chain self with
                | [] => -1
                | _ => Z.of_nat (List.length (chain self))
                end.
Proof.
  assert (Hpush : forall now block self0,
    snd (_addBlock now block self0) = self0 \/
    height (snd (_addBlock now block self0)) =
      Z.of_nat (List.length (chain (snd (_addBlock now block self0)))) /\
    chain (snd (_addBlock now block self0)) <> []).
  { intros now block self0.
    destruct (_addBlock_ledger now block self0) as [E|[_ E]]; [now left|].
    right. rewrite E. unfold pushed, push. cbn. split; [reflexivity|].
    now destruct (chain self0). }
  assert (Hstep : forall now block self0,
    height self0 = match chain self0 with
                   | [] => -1
                   | _ => Z.of_nat (List.length (chain self0))
                   end ->
    height (snd (_addBlock now block self0)) =
      match chain (snd (_addBlock now block self0)) with
      | [] => -1
      | _ => Z.of_nat (List.length (chain (snd (_addBlock now block self0))))
      end).
  { intros now block self0 IH.
    destruct (Hpush now block self0) as [->|[Hh Hne]]; [exact IH|].
    destruct (chain (snd (_addBlock now block self0))); [now elim Hne|exact Hh]. }
  induction 1 as [|now self _ IH|now data self _ IH
                 |now now_add address message signature star self _ IH].
  - reflexivity.
  - destruct (initializeChain_ledger now self) as [->| ->]; [exact IH|].
    now apply Hstep.
  - now apply Hstep.
  - rewrite submitStar_ledger.
    destruct (verification_outcome_ledger now_add address message signature
                star self) as [->|[isValid [_ ->]]]; [exact IH|].
    now apply Hstep.
Qed.

(** ** Submitting a star *)

Lemma submitStar_not_expired (now now_add : Z)
    (address message signature star : string) (self : Blockchain) :
  expired now message = false ->
  submitStar now now_add address message signature star self =
  verification_outcome now_add address message signature star self.
Proof.
  intros H. rewrite submitStar_eq, H.
  destruct (verification_outcome _ _ _ _ _ self); reflexivity.
Qed.

Lemma submitStar_expired (now now_add : Z)
    (address message signature star : string) (self : Blockchain) :
  expired now message = true ->
  fst (submitStar now now_add address message signature star self) =
  Rejected (Error "Message Expired").
Proof.
  intros H. rewrite submitStar_eq, H.
  destruct (verification_outcome _ _ _ _ _ self); reflexivity.
Qed.

(** C7: when the timestamp carried by the message is [t] seconds and the
    clock of the submission is exactly 300 seconds later, [submitStar] is
    rejected with the expiry error; when the clock is 299 seconds later
    the expiry test lets the message through and the outcome is the one of
    the signature check, reached with the promise not settled. *)
Theorem submitStar_expiry_boundary (now now_add : Z)
    (address message signature star : string) (self : Blockchain) (t : Z) :
  messageTime message = Num t ->
  1000 <= now ->
  (now / 1000 = t + 300 ->
   fst (submitStar now now_add address message signature star self) =
   Rejected (Error "Message Expired")) /\
  (now / 1000 = t + 299 ->
   submitStar now now_add address message signature star self =
   verification_outcome now_add address message signature star self).
Proof.
  intros Ht Hnow. split; intros Hs.
  - apply submitStar_expired. unfold expired.
    rewrite Ht, currentTime_seconds by exact Hnow. cbn. apply Z.leb_le. lia.
  - apply submitStar_not_expired. unfold expired.
    rewrite Ht, currentTime_seconds by exact Hnow. cbn. apply Z.leb_gt. lia.
Qed.

(** C10: a message with no colon has no timestamp field, so that
    [parseInt] yields [NaN]; and whenever the timestamp field reads as
    [NaN], at every clock, the expiry test is false and [submitStar] goes
    on to the signature check with its promise not settled: its outcome is
    the one of the signature check, never the expiry rejection. *)
Theorem submitStar_NaN_timestamp (now now_add : Z)
    (address message signature star : string) (self : Blockchain) :
  (includes ":" message = false -> messageTime message = NaN) /\
  (messageTime message = NaN ->
   expired now message = false /\
   submitStar now now_add address message signature star self =
   verification_outcome now_add address message signature star self).
Proof.
  split; [apply messageTime_no_colon|].
  intros H.
  assert (E : expired now message = false).
  { unfold expired. rewrite H. cbn. now destruct (currentTime now). }
  split; [exact E | now apply submitStar_not_expired].
Qed.

(** C1 (what the code does instead): on a valid chain and with a digest
    that is never empty, when the signature check returns normally and
    either the message is expired or the check says no, [submitStar] is
    rejected and yet the ledger has grown by the new block, and the
    height with it. *)
Theorem submitStar_rejected_yet_appended (now now_add : Z)
    (address message signature star : string) (self : Blockchain)
    (isValid : bool) :
  (forall s, truthy (SHA256 s) = true) ->
  fst (validateChain self) = Fulfilled true ->
  verify message address signature = Normal isValid ->
  expired now message = true \/ isValid = false ->
  exists e block,
    submitStar now now_add address message signature star self =
    (Rejected e, pushed self block) /\
    List.length (chain (pushed self block)) = S (List.length (chain self)) /\
    height (pushed self block) = Z.of_nat (List.length (chain self)) + 1.
Proof.
  intros Htruthy Hvalid Hverify Hfail.
  apply validateChain_Fulfilled in Hvalid.
  set (block := stored_block now_add (Block.create encode (StarData address star)) self).
  assert (Hrun : verification_outcome now_add address message signature star self =
                 (if isValid then Fulfilled block
                  else Rejected (Error "Failed message validation."),
                  pushed self block)).
  { rewrite verification_outcome_eq, Hverify, _addBlock_eq, Hvalid, Htruthy.
    reflexivity. }
  assert (Hlen : List.length (chain (pushed self block)) =
                 S (List.length (chain self))).
  { unfold pushed, push. cbn. rewrite length_app. cbn. lia. }
  assert (Hheight : height (pushed self block) =
                    Z.of_nat (List.length (chain self)) + 1).
  { unfold pushed at 1. cbn [height]. fold (chain (pushed self block)).
    change (push (chain self) block) with (chain (pushed self block)).
    rewrite Hlen. lia. }
  rewrite submitStar_eq, Hrun.
  destruct (expired now message) eqn:E.
  - exists (Error "Message Expired"), block. repeat split; assumption.
  - destruct Hfail as [Hfail| ->]; [discriminate Hfail|].
    exists (Error "Failed message validation."), block.
    repeat split; assumption.
Qed.

(** ** What a writing method can do to the chain *)

(** X1: the writing methods only ever append: after [_addBlock],
    [submitStar] or [initializeChain] the chain is the chain before the
    call followed by at most one block; no stored block is removed or
    replaced. *)
Theorem writers_append_only (self : Blockchain) :
  (forall now block, exists suffix,
     chain (snd (_addBlock now block self)) = (chain self ++ suffix)%list /\
     (List.length suffix <= 1)%nat) /\
  (forall now now_add address message signature star, exists suffix,
     chain (snd (submitStar now now_add address message signature star self)) =
       (chain self ++ suffix)%list /\
     (List.length suffix <= 1)%nat) /\
  (forall now, exists suffix,
     chain (snd (initializeChain now self)) = (chain self ++ suffix)%list /\
     (List.length suffix <= 1)%nat).
Proof.
  assert (Hadd : forall now block, exists suffix,
    chain (snd (_addBlock now block self)) = (chain self ++ suffix)%list /\
    (List.length suffix <= 1)%nat).
  { intros now block.
    destruct (_addBlock_ledger now block self) as [->|[_ ->]].
    - exists []. rewrite app_nil_r. split; [reflexivity | cbn; lia].
    - exists [stored_block now block self]. split; [reflexivity | cbn; lia]. }
  assert (Hnone : exists suffix,
    chain self = (chain self ++ suffix)%list /\ (List.length suffix <= 1)%nat).
  { exists []. rewrite app_nil_r. split; [reflexivity | cbn; lia]. }
  split; [exact Hadd|]. split.
  - intros now now_add address message signature star.
    rewrite submitStar_ledger.
    destruct (verification_outcome_ledger now_add address message signature
                star self) as [->|[isValid [_ ->]]]; [exact Hnone | apply Hadd].
  - intros now.
    destruct (initializeChain_ledger now self) as [->| ->];
      [exact Hnone | apply Hadd].
Qed.

(** ** More on submitting a star *)

(** X2: when [bitcoinMessage.verify] throws, [submitStar] is rejected,
    with the expiry error when the message is expired and with the error
    thrown otherwise, and the ledger is left as it was. *)
Theorem submitStar_verify_throws (now now_add : Z)
    (address message signature star : string) (self : Blockchain)
    (e : JsError) :
  verify message address signature = Throw e ->
  submitStar now now_add address message signature star self =
  (Rejected (if expired now message then Error "Message Expired" else e), self).
Proof.
  intros H. rewrite submitStar_eq, verification_outcome_eq, H.
  destruct (expired now message); reflexivity.
Qed.

(** X3: on a chain that validates, with a digest that is never empty, a
    message that is not expired and a signature that verifies,
    [submitStar] is fulfilled with the block it stores: the chain grows by
    that one block and the height field becomes the new length; the block
    holds the encoded [{owner, star}], the old length as height, the
    clock in seconds as time and the hash of the former last block as
    previous hash, and it is the latest block from then on. *)
Theorem submitStar_accepted (now now_add : Z)
    (address message signature star : string) (self : Blockchain) :
  (forall s, truthy (SHA256 s) = true) ->
  fst (validateChain self) = Fulfilled true ->
  verify message address signature = Normal true ->
  expired now message = false ->
  exists b,
    submitStar now now_add address message signature star self =
    (Fulfilled b,
     mkBlockchain (chain self ++ [b])
       (Z.of_nat (List.length (chain self)) + 1)) /\
    Block.body b = encode (StarData address star) /\
    Block.height b = Some (Z.of_nat (List.length (chain self))) /\
    Block.time b = Some (timeText now_add) /\
    Block.previousBlockHash b =
      match _getLatestBlock self with
      | Some latest => Block.hash latest
      | None => None
      end /\
    _getLatestBlock
      (snd (submitStar now now_add address message signature star self)) =
    Some b.
Proof.
  intros Htruthy Hvalid Hverify Hfresh.
  apply validateChain_Fulfilled in Hvalid.
  set (b := stored_block now_add (Block.create encode (StarData address star)) self).
  exists b.
  assert (Hrun : submitStar now now_add address message signature star self =
                 (Fulfilled b, pushed self b)).
  { rewrite submitStar_eq, verification_outcome_eq, Hverify, _addBlock_eq,
      Hvalid, Htruthy, Hfresh. reflexivity. }
  rewrite Hrun. unfold pushed, push. rewrite length_app. cbn [List.length].
  split; [f_equal; f_equal; lia|].
  unfold b, stored_block, stamped_block. cbn.
  do 4 (split; [reflexivity|]).
  unfold _getLatestBlock. cbn [chain]. rewrite length_app. cbn [List.length].
  replace (0 <? List.length (chain self) + 1)%nat with true
    by (symmetry; apply Nat.ltb_lt; lia).
  replace (List.length (chain self) + 1 - 1)%nat
    with (List.length (chain self)) by lia.
  now rewrite nth_error_middle.
Qed.

(** X4: on a chain for which [validateChain] reports inconsistencies, a
    submission that is not expired and whose signature verifies is never
    answered: the promise of [submitStar] stays pending, and nothing is
    stored. *)
Theorem submitStar_pending_on_invalid_chain (now now_add : Z)
    (address message signature star : string) (self : Blockchain)
    (errorLog : list string) :
  fst (validateChain self) = Rejected (ErrorLog errorLog) ->
  verify message address signature = Normal true ->
  expired now message = false ->
  submitStar now now_add address message signature star self = (Pending, self).
Proof.
  intros Hinvalid Hverify Hfresh.
  rewrite submitStar_eq, verification_outcome_eq, Hverify, _addBlock_eq, Hfresh.
  rewrite validateChain_eq in Hinvalid. cbn in Hinvalid.
  destruct (errorLog_of (chain self)); [discriminate Hinvalid | reflexivity].
Qed.

Lemma requestMessageOwnershipVerification_eq (now : Z) (address : string)
    (self : Blockchain) :
  requestMessageOwnershipVerification now address self =
  (Fulfilled (address ++ ":" ++ timeText now ++ ":starRegistry"), self).
Proof. reflexivity. Qed.

(** X5: a message issued by [requestMessageOwnershipVerification] for an
    address without colon is expired at submission exactly when the
    clock, in whole seconds, is at least 300 seconds past the second it
    was issued in. *)
Theorem issued_message_expiry (issued now : Z) (address message : string)
    (self : Blockchain) :
  includes ":" address = false ->
  1000 <= issued ->
  1000 <= now ->
  fst (requestMessageOwnershipVerification issued address self) =
    Fulfilled message ->
  expired now message = (issued / 1000 + 300 <=? now / 1000).
Proof.
  intros Haddress Hissued Hnow Hmessage.
  rewrite requestMessageOwnershipVerification_eq in Hmessage.
  cbn [fst] in Hmessage. injection Hmessage as <-.
  unfold expired.
  rewrite timeText_seconds, currentTime_seconds by assumption.
  change (address ++ String ":" (toString (issued / 1000) ++ ":starRegistry"))
    with (address ++ ":" ++ toString (issued / 1000) ++ ":starRegistry").
  rewrite messageTime_issued by (try assumption; apply Z.div_pos; lia).
  reflexivity.
Qed.

(** ** Height field and genesis *)

(** X6: in every ledger reached from a new one by the writing methods,
    the height field is -1 while the chain is empty and is the number of
    blocks of the chain as soon as there is one. *)
Theorem reachable_height_field (self : Blockchain) :
  reachable self ->
  (chain self = [] -> height self = -1) /\
  (chain self <> [] -> height self = Z.of_nat (List.length (chain self))).
Proof.
  intros H. pose proof (reachable_height self H) as Hh.
  destruct (chain self) as [|b blocks].
  - split; [intros _; exact Hh | intros Hne; now elim Hne].
  - split; [intros E; discriminate E | intros _; exact Hh].
Qed.

(** X7: [initializeChain] creates the genesis block once only: on every
    reached ledger that holds a block it is fulfilled and leaves the
    ledger as it was. *)
Theorem initializeChain_idempotent (now : Z) (self : Blockchain) :
  reachable self ->
  chain self <> [] ->
  initializeChain now self = (Fulfilled tt, self).
Proof.
  intros H Hne. pose proof (reachable_height self H) as Hh.
  unfold initializeChain, async, bind, get.
  destruct (chain self) as [|b blocks]; [now elim Hne|].
  rewrite Hh. cbn [List.length].
  destruct (Z.of_nat (S (List.length blocks)) =? -1) eqn:E;
    [apply Z.eqb_eq in E; lia | reflexivity].
Qed.

(** ** Looking blocks up *)

Lemma nth_error_push (blocks : list Block.t) (b : Block.t) (i : nat) :
  nth_error (push blocks b) i =
  if (i <? List.length blocks)%nat then nth_error blocks i
  else if (i =? List.length blocks)%nat then Some b else None.
Proof.
  unfold push.
  destruct (i <? List.length blocks)%nat eqn:E.
  - apply Nat.ltb_lt in E. now apply nth_error_app1.
  - apply Nat.ltb_ge in E. rewrite nth_error_app2 by exact E.
    destruct (i =? List.length blocks)%nat eqn:E'.
    + apply Nat.eqb_eq in E'. subst i. now rewrite Nat.sub_diag.
    + apply Nat.eqb_neq in E'.
      destruct (i - List.length blocks)%nat as [|k] eqn:Ek; [lia|].
      cbn. now destruct k.
Qed.

Lemma hashed_unlinked_addBlock (now : Z) (data : Payload) (self : Blockchain) :
  hashed_unlinked (chain self) ->
  hashed_unlinked (chain (snd (_addBlock now (Block.create encode data) self))).
Proof.
  intros H.
  destruct (_addBlock_ledger now (Block.create encode data) self)
    as [->|[_ ->]]; [exact H|].
  intros i b. cbn [pushed chain]. rewrite nth_error_push.
  destruct (i <? List.length (chain self))%nat; [apply H|].
  destruct (i =? List.length (chain self))%nat eqn:E;
    [|intros Hb; discriminate Hb].
  apply Nat.eqb_eq in E. subst i. intros Hb. injection Hb as <-.
  reflexivity.
Qed.

Lemma reachable_hashed_unlinked (self : Blockchain) :
  reachable self -> hashed_unlinked (chain self).
Proof.
  induction 1 as [|now self _ IH|now data self _ IH
                 |now now_add address message signature star self _ IH].
  - intros [|i] b Hb; discriminate Hb.
  - destruct (initializeChain_ledger now self) as [->| ->]; [exact IH|].
    now apply hashed_unlinked_addBlock.
  - now apply hashed_unlinked_addBlock.
  - rewrite submitStar_ledger.
    destruct (verification_outcome_ledger now_add address message signature
                star self) as [->|[isValid [_ ->]]]; [exact IH|].
    now apply hashed_unlinked_addBlock.
Qed.

Lemma find_by_height (h : Z) (blocks : list Block.t) : forall k : nat,
  (forall i b, nth_error blocks i = Some b ->
               Block.height b = Some (Z.of_nat (k + i))) ->
  find (fun p => match Block.height p with
                 | Some x => x =? h
                 | None => false
                 end) blocks =
  if h <? Z.of_nat k then None else nth_error blocks (Z.to_nat h - k).
Proof.
  induction blocks as [|x blocks IH]; intros k Hheights.
  - cbn. destruct (h <? Z.of_nat k); [reflexivity|].
    now destruct (Z.to_nat h - k)%nat.
  - cbn [find]. rewrite (Hheights 0%nat x eq_refl). rewrite Nat.add_0_r.
    destruct (Z.of_nat k =? h) eqn:E.
    + apply Z.eqb_eq in E. subst h.
      replace (Z.of_nat k <? Z.of_nat k) with false
        by (symmetry; apply Z.ltb_ge; lia).
      now rewrite Nat2Z.id, Nat.sub_diag.
    + apply Z.eqb_neq in E. rewrite (IH (S k)).
      * destruct (h <? Z.of_nat k) eqn:E1.
        -- apply Z.ltb_lt in E1.
           replace (h <? Z.of_nat (S k)) with true
             by (symmetry; apply Z.ltb_lt; lia).
           reflexivity.
        -- apply Z.ltb_ge in E1.
           replace (h <? Z.of_nat (S k)) with false
             by (symmetry; apply Z.ltb_ge; lia).
           replace (Z.to_nat h - k)%nat with (S (Z.to_nat h - S k)) by lia.
           reflexivity.
      * intros i b Hb. rewrite (Hheights (S i) b Hb). f_equal. lia.
Qed.

(** X8: on every reached ledger [getBlockByHeight] is fulfilled with the
    block stored at that index of the chain, and with [null] when the
    height is negative or not below the number of blocks; it never
    fails. *)
Theorem getBlockByHeight_reachable (h : Z) (self : Blockchain) :
  reachable self ->
  getBlockByHeight h self =
  (Fulfilled (if h <? 0 then None else nth_error (chain self) (Z.to_nat h)),
   self).
Proof.
  intros H. destruct (reachable_well_linked self H) as (_ & Hheight & _).
  unfold getBlockByHeight, new_Promise, bind, get, resolve, settle.
  rewrite (find_by_height h (chain self) 0 Hheight).
  cbn [Z.of_nat]. now rewrite Nat.sub_0_r.
Qed.

Lemma filter_only_index {A} (f : A -> bool) (l : list A) : forall i x,
  nth_error l i = Some x -> f x = true ->
  (forall j y, nth_error l j = Some y -> f y = true -> j = i) ->
  filter f l = [x].
Proof.
  induction l as [|a l IH]; intros i x Hx Hfx Honly.
  - destruct i; discriminate Hx.
  - assert (Hnone : forall m, (forall j y, nth_error m j = Some y ->
                                           f y = true -> False) ->
                              filter f m = []).
    { induction m as [|c m IHm]; intros Hm; [reflexivity|]. cbn.
      destruct (f c) eqn:Ec; [elim (Hm 0%nat c eq_refl Ec)|].
      apply IHm. intros j y Hy Hfy. exact (Hm (S j) y Hy Hfy). }
    destruct i as [|i].
    + cbn in Hx. injection Hx as ->. cbn. rewrite Hfx. f_equal.
      apply Hnone. intros j y Hy Hfy.
      specialize (Honly (S j) y Hy Hfy). discriminate Honly.
    + cbn in Hx. cbn. destruct (f a) eqn:Ea.
      * specialize (Honly 0%nat a eq_refl Ea). discriminate Honly.
      * apply (IH i x Hx Hfx). intros j y Hy Hfy.
        specialize (Honly (S j) y Hy Hfy). now injection Honly.
Qed.

(** X9: when the digest tells blocks of different heights apart, the
    hashes of a reached ledger are pairwise distinct: [getBlockByHash] on
    the hash of a stored block is fulfilled with that block alone. *)
Theorem getBlockByHash_singleton (self : Blockchain) (i : nat)
    (b : Block.t) (h : string) :
  (forall (m n : nat) body1 time1 body2 time2,
     SHA256 (JSON_stringify
       (Block.mk None (Some (Z.of_nat m)) body1 time1 None)) =
     SHA256 (JSON_stringify
       (Block.mk None (Some (Z.of_nat n)) body2 time2 None)) ->
     m = n) ->
  reachable self ->
  nth_error (chain self) i = Some b ->
  Block.hash b = Some h ->
  getBlockByHash h self = (Fulfilled [b], self).
Proof.
  intros Hsep Hreach Hb Hh.
  pose proof (reachable_hashed_unlinked self Hreach) as Hhashed.
  unfold getBlockByHash, new_Promise, bind, get, resolve, settle.
  rewrite (filter_only_index _ (chain self) i b Hb); [reflexivity| |].
  - rewrite Hh. cbn. apply String.eqb_refl.
  - intros j y Hy Hfy.
    destruct (Block.hash y) as [hy|] eqn:Ehy; [|discriminate Hfy].
    cbn in Hfy. apply String.eqb_eq in Hfy. subst hy.
    rewrite (Hhashed j y Hy) in Ehy. rewrite (Hhashed i b Hb) in Hh.
    injection Ehy as Ehy. injection Hh as Hh.
    apply (Hsep j i (Block.body y) (Block.time y) (Block.body b) (Block.time b)).
    now rewrite Ehy, Hh.
Qed.

(** ** A star after its submission *)

Lemma submitStar_Fulfilled_inv (now now_add : Z)
    (address message signature star : string) (self self' : Blockchain)
    (b : Block.t) :
  submitStar now now_add address message signature star self =
    (Fulfilled b, self') ->
  b = stored_block now_add (Block.create encode (StarData address star)) self /\
  self' = pushed self b.
Proof.
  rewrite submitStar_eq, verification_outcome_eq, _addBlock_eq.
  destruct (expired now message);
    destruct (verify message address signature) as [[|]|e];
    destruct (errorLog_of (chain self));
    try destruct (truthy _); intros H; try discriminate H.
  injection H as <- <-. split; reflexivity.
Qed.

(** X10: a star that [submitStar] accepted is found again: when the
    codec reads back the payload it wrote and every body of the old chain
    decodes, [getStarsByWalletAddress] for the owner, on the ledger after
    the submission, is fulfilled with the stars the owner had before
    followed by the new one. *)
Theorem star_found_after_submitStar (now now_add : Z)
    (address message signature star : string) (self self' : Blockchain)
    (b : Block.t) (payloads : list Payload) :
  decode (encode (StarData address star)) = Some (StarData address star) ->
  map (fun x => decode (Block.body x)) (chain self) = map Some payloads ->
  submitStar now now_add address message signature star self =
    (Fulfilled b, self') ->
  getStarsByWalletAddress address self' =
  (Fulfilled (stars_of address payloads ++ [StarData address star])%list,
   self').
Proof.
  intros Hcodec Hold Hsubmit.
  destruct (submitStar_Fulfilled_inv _ _ _ _ _ _ _ _ _ Hsubmit) as [Hb ->].
  rewrite getStarsByWalletAddress_eq.
  rewrite (decode_all_Normal _ (payloads ++ [StarData address star])%list).
  - unfold stars_of. rewrite filter_app. cbn.
    now rewrite String.eqb_refl.
  - cbn [pushed chain]. unfold push. rewrite !map_app, Hold. cbn.
    subst b. cbn. now rewrite Hcodec.
Qed.

(** ** What validation looks at *)

Lemma validate_from_previous_hash (i : nat) (p p' : Block.t)
    (blocks : list Block.t) (errorLog : list string) :
  Block.hash p' = Block.hash p ->
  validate_from i p' blocks errorLog = validate_from i p blocks errorLog.
Proof.
  intros H. destruct blocks as [|c blocks]; [reflexivity|].
  cbn [validate_from]. now rewrite H.
Qed.

(** X11: on a chain of two blocks or more [validateChain] never checks
    the first block itself: replacing it by any block with the same hash
    field (another payload, another time) gives the same outcome. *)
Theorem validateChain_skips_first_block (block0 block0' block1 : Block.t)
    (blocks : list Block.t) (h h' : Z) :
  Block.hash block0' = Block.hash block0 ->
  fst (validateChain (mkBlockchain (block0' :: block1 :: blocks) h')) =
  fst (validateChain (mkBlockchain (block0 :: block1 :: blocks) h)).
Proof.
  intros H. rewrite !validateChain_eq. cbn [fst chain errorLog_of].
  now rewrite (validate_from_previous_hash 1 block0 block0' _ _ H).
Qed.

(** X12: a reached ledger of at most one block validates: the hash of a
    genesis block covers its final fields, since nothing is assigned
    after the digest is taken. *)
Theorem validateChain_genesis (self : Blockchain) :
  reachable self ->
  (List.length (chain self) <= 1)%nat ->
  validateChain self = (Fulfilled true, self).
Proof.
  intros H Hlen. rewrite validateChain_eq.
  destruct (reachable_well_linked self H) as (_ & Hheight & Hfirst).
  pose proof (reachable_hashed_unlinked self H) as Hhashed.
  destruct (chain self) as [|b0 [|b1 blocks]]; [reflexivity| |cbn in Hlen; lia].
  cbn [errorLog_of]. unfold Block.validate.
  rewrite (Hhashed 0%nat b0 eq_refl), (Hheight 0%nat b0 eq_refl),
    (Hfirst b0 eq_refl).
  cbn. now rewrite String.eqb_refl.
Qed.

Lemma validate_from_keeps (blocks : list Block.t) :
  forall (i : nat) (p : Block.t) (errorLog : list string),
  errorLog <> [] -> validate_from i p blocks errorLog <> [].
Proof.
  induction blocks as [|c blocks IH]; intros i p errorLog Hne; [exact Hne|].
  cbn [validate_from]. apply IH.
  assert (Hpush : forall (l : list string) x, push l x <> []).
  { intros l x. unfold push. now destruct l. }
  destruct (negb (option_string_eqb _ _)); [apply Hpush|].
  destruct (negb (Block.validate _ _ _)); [apply Hpush | exact Hne].
Qed.

Lemma reachable_valid_is_short (self : Blockchain) :
  (forall h body time p,
     SHA256 (JSON_stringify (Block.mk None h body time (Some p))) <>
     SHA256 (JSON_stringify (Block.mk None h body time None))) ->
  reachable self ->
  errorLog_of (chain self) = [] ->
  (List.length (chain self) <= 1)%nat.
Proof.
  intros Hsep H Hvalid.
  destruct (reachable_well_linked self H) as (Hprev & Hheight & _).
  pose proof (reachable_hashed_unlinked self H) as Hhashed.
  destruct (chain self) as [|b0 [|b1 blocks]]; [cbn; lia | cbn; lia |].
  exfalso. revert Hvalid. cbn [errorLog_of validate_from].
  apply validate_from_keeps.
  assert (Hinvalid : Block.validate SHA256 JSON_stringify b1 = false).
  { unfold Block.validate.
    rewrite (Hhashed 1%nat b1 eq_refl), (Hheight 1%nat b1 eq_refl),
      (Hprev 0%nat b0 b1 eq_refl eq_refl), (Hhashed 0%nat b0 eq_refl).
    cbn. apply String.eqb_neq. intros E. symmetry in E.
    exact (Hsep _ _ _ _ E). }
  rewrite Hinvalid. cbn [negb].
  destruct (negb (option_string_eqb _ _)); unfold push; discriminate.
Qed.

(** X13: when the calls of the writing methods run one after the other,
    each to its end before the next one starts (which is what [reachable]
    describes; calls issued in the same tick and overlapping at the
    [await] of [_addBlock] are not covered), and the digest tells a block
    with a previous hash from the same block without one, no ledger
    reached holds more than two blocks: the second block, hashed before it
    was linked, does not validate, and [_addBlock] stores nothing on a
    chain that does not validate. *)
Theorem chain_never_exceeds_two_blocks (self : Blockchain) :
  (forall h body time p,
     SHA256 (JSON_stringify (Block.mk None h body time (Some p))) <>
     SHA256 (JSON_stringify (Block.mk None h body time None))) ->
  reachable self ->
  (List.length (chain self) <= 2)%nat.
Proof.
  intros Hsep H.
  assert (Hadd : forall now block self0,
    reachable self0 ->
    (List.length (chain self0) <= 2)%nat ->
    (List.length (chain (snd (_addBlock now block self0))) <= 2)%nat).
  { intros now block self0 Hr Hlen.
    destruct (_addBlock_ledger now block self0) as [->|[Hvalid ->]];
      [exact Hlen|].
    pose proof (reachable_valid_is_short self0 Hsep Hr Hvalid).
    cbn [pushed chain]. unfold push. rewrite length_app. cbn. lia. }
  induction H as [|now self Hr IH|now data self Hr IH
                 |now now_add address message signature star self Hr IH].
  - cbn. lia.
  - destruct (initializeChain_ledger now self) as [->| ->]; [exact IH|].
    now apply Hadd.
  - now apply Hadd.
  - rewrite submitStar_ledger.
    destruct (verification_outcome_ledger now_add address message signature
                star self) as [->|[isValid [_ ->]]]; [exact IH|].
    now apply Hadd.
Qed.

End Facts.

(** * The properties on the sample ledgers *)

Lemma sample_digest_truthy (s : string) : truthy (Sample.SHA256 s) = true.
Proof. reflexivity. Qed.

Example sample_genesis_only :
  SampleRun.genesis_only =
  mkBlockchain
    [Block.mk
       (Some "sha256({hash:null,height:<0>,body:GGenesis Block,time:<1000>,previousBlockHash:null})")
       (Some 0) "GGenesis Block" (Some "1000") None]
    1.
Proof. reflexivity. Qed.

Example sample_two_blocks_chain :
  map Block.body (chain SampleRun.two_blocks) =
    ["GGenesis Block"; "S1A1z:Vega"] /\
  map Block.height (chain SampleRun.two_blocks) = [Some 0; Some 1] /\
  height SampleRun.two_blocks = 2.
Proof. repeat split; reflexivity. Qed.

(** With a digest that tells renderings apart, the second block never
    validates, so that a third star, however well signed, is never
    answered and never stored. *)
Example third_star_never_settles :
  submitStar (ext := Sample.externals) 1500000 1500001
    "1A1z" "1A1z:1400:starRegistry" "valid" "Sirius" SampleRun.two_blocks =
  (Pending, SampleRun.two_blocks).
Proof. reflexivity. Qed.

(** A payload rewritten in place is reported for its block. *)
Example tampered_is_reported :
  validateChain (ext := Sample.externals) SampleRun.tampered =
  (Rejected (ErrorLog ["Block 0 validation failed."]), SampleRun.tampered).
Proof. reflexivity. Qed.

Lemma requestMessageOwnershipVerification_message_witness :
  1000 <= 1700000000123 /\
  requestMessageOwnershipVerification 1700000000123 "1A1z"
    SampleRun.genesis_only =
  (Fulfilled "1A1z:1700000000:starRegistry", SampleRun.genesis_only).
Proof.
  split; [lia|].
  apply (requestMessageOwnershipVerification_message 1700000000123 "1A1z"
           SampleRun.genesis_only).
  lia.
Defined.

Lemma reachable_two_blocks : reachable (ext := Sample.externals) SampleRun.two_blocks.
Proof.
  unfold SampleRun.two_blocks, SampleRun.genesis_only, constructor.
  apply reachable_submitStar, reachable_initializeChain, reachable_new.
Qed.

Lemma reachable_linkage_witness :
  reachable (ext := Sample.externals) SampleRun.two_blocks /\
  (forall i previousBlock currentBlock,
     (0 < i)%nat ->
     nth_error (chain SampleRun.two_blocks) (i - 1) = Some previousBlock ->
     nth_error (chain SampleRun.two_blocks) i = Some currentBlock ->
     Block.previousBlockHash currentBlock = Block.hash previousBlock /\
     Block.height currentBlock = Some (Z.of_nat i)) /\
  (forall genesis,
     nth_error (chain SampleRun.two_blocks) 0 = Some genesis ->
     Block.previousBlockHash genesis = None /\
     Block.height genesis = Some 0).
Proof.
  split; [exact reachable_two_blocks|].
  apply (reachable_linkage (ext := Sample.externals) SampleRun.two_blocks).
  exact reachable_two_blocks.
Defined.

Lemma _addBlock_pending_on_invalid_chain_witness :
  fst (validateChain (ext := Sample.externals) SampleRun.tampered) =
    Rejected (ErrorLog ["Block 0 validation failed."]) /\
  _addBlock (ext := Sample.externals) 1500000 SampleRun.sirius
    SampleRun.tampered = (Pending, SampleRun.tampered).
Proof.
  split; [reflexivity|].
  apply (_addBlock_pending_on_invalid_chain (ext := Sample.externals)
           1500000 SampleRun.sirius SampleRun.tampered
           ["Block 0 validation failed."]).
  reflexivity.
Defined.

(** The same on the ledger that two accepted blocks leave behind. *)
Example _addBlock_after_two_blocks :
  fst (validateChain (ext := Sample.externals) SampleRun.two_blocks) =
    Rejected (ErrorLog ["Block 1 validation failed."]) /\
  _addBlock (ext := Sample.externals) 1500000 SampleRun.sirius
    SampleRun.two_blocks = (Pending, SampleRun.two_blocks).
Proof. split; reflexivity. Qed.

Lemma _addBlock_hash_omits_previousBlockHash_witness :
  exists latest b self',
    _getLatestBlock SampleRun.genesis_only = Some latest /\
    _addBlock (ext := Sample.externals) 1500000 SampleRun.sirius
      SampleRun.genesis_only = (Fulfilled b, self') /\
    Block.previousBlockHash b = Block.hash latest /\
    Block.hash b =
      Some (Sample.SHA256 (Sample.JSON_stringify
         (Block.mk None (Block.height b) (Block.body b) (Block.time b) None))) /\
    Block.validate Sample.SHA256 Sample.JSON_stringify b = false.
Proof.
  eexists. eexists. eexists.
  split; [reflexivity|]. split; [reflexivity|].
  destruct (_addBlock_hash_omits_previousBlockHash (ext := Sample.externals)
              1500000 (StarData "1A1z" "Sirius") SampleRun.genesis_only
              _ _ _ eq_refl eq_refl) as (Hprev & Hhash & Hvalidate).
  split; [exact Hprev|]. split; [exact Hhash|].
  apply Hvalidate. discriminate.
Defined.

Lemma constructor_height_witness :
  (forall s, truthy (Sample.SHA256 s) = true) /\
  List.length (chain (constructor (ext := Sample.externals) 1000000)) = 1%nat /\
  getChainHeight (constructor (ext := Sample.externals) 1000000) =
  (Fulfilled 1, constructor (ext := Sample.externals) 1000000).
Proof.
  split; [exact sample_digest_truthy|].
  apply (constructor_height (ext := Sample.externals) 1000000).
  exact sample_digest_truthy.
Defined.

Lemma submitStar_expiry_boundary_witness :
  messageTime "1A1z:1000:starRegistry" = Num 1000 /\
  fst (submitStar (ext := Sample.externals) 1300000 1300001
         "1A1z" "1A1z:1000:starRegistry" "valid" "Sirius"
         SampleRun.genesis_only) = Rejected (Error "Message Expired") /\
  submitStar (ext := Sample.externals) 1299999 1300001
    "1A1z" "1A1z:1000:starRegistry" "valid" "Sirius" SampleRun.genesis_only =
  verification_outcome (ext := Sample.externals) 1300001
    "1A1z" "1A1z:1000:starRegistry" "valid" "Sirius" SampleRun.genesis_only.
Proof.
  split; [reflexivity|]. split.
  - apply (submitStar_expiry_boundary (ext := Sample.externals)
             1300000 1300001 "1A1z" "1A1z:1000:starRegistry" "valid" "Sirius"
             SampleRun.genesis_only 1000);
      [reflexivity | lia | reflexivity].
  - apply (submitStar_expiry_boundary (ext := Sample.externals)
             1299999 1300001 "1A1z" "1A1z:1000:starRegistry" "valid" "Sirius"
             SampleRun.genesis_only 1000);
      [reflexivity | lia | reflexivity].
Defined.

Lemma submitStar_NaN_timestamp_witness :
  includes ":" "no timestamp here" = false /\
  messageTime "no timestamp here" = NaN /\
  expired 1300000 "no timestamp here" = false /\
  submitStar (ext := Sample.externals) 1300000 1300001
    "1A1z" "no timestamp here" "forged" "Sirius" SampleRun.genesis_only =
  verification_outcome (ext := Sample.externals) 1300001
    "1A1z" "no timestamp here" "forged" "Sirius" SampleRun.genesis_only.
Proof.
  destruct (submitStar_NaN_timestamp (ext := Sample.externals)
              1300000 1300001 "1A1z" "no timestamp here" "forged" "Sirius"
              SampleRun.genesis_only) as [Hnan Hgo].
  split; [reflexivity|]. split; [exact (Hnan eq_refl)|].
  exact (Hgo (Hnan eq_refl)).
Defined.

Lemma submitStar_rejected_yet_appended_witness :
  (forall s, truthy (Sample.SHA256 s) = true) /\
  fst (validateChain (ext := Sample.externals) SampleRun.genesis_only) =
    Fulfilled true /\
  Sample.verify "1A1z:1000:starRegistry" "1A1z" "forged" = Normal false /\
  (expired 1300000 "1A1z:1000:starRegistry" = true \/ false = false) /\
  exists e block,
    submitStar (ext := Sample.externals) 1300000 1300001
      "1A1z" "1A1z:1000:starRegistry" "forged" "Sirius"
      SampleRun.genesis_only =
    (Rejected e, pushed SampleRun.genesis_only block) /\
    List.length (chain (pushed SampleRun.genesis_only block)) =
      S (List.length (chain SampleRun.genesis_only)) /\
    height (pushed SampleRun.genesis_only block) =
      Z.of_nat (List.length (chain SampleRun.genesis_only)) + 1.
Proof.
  split; [exact sample_digest_truthy|].
  split; [reflexivity|]. split; [reflexivity|].
  split; [left; reflexivity|].
  apply (submitStar_rejected_yet_appended (ext := Sample.externals)
           1300000 1300001 "1A1z" "1A1z:1000:starRegistry" "forged" "Sirius"
           SampleRun.genesis_only false).
  - exact sample_digest_truthy.
  - reflexivity.
  - reflexivity.
  - left. reflexivity.
Defined.

Lemma getStarsByWalletAddress_strict_witness :
  getStarsByWalletAddress (ext := Sample.externals) "1A1z"
    SampleRun.two_blocks =
  (Fulfilled [StarData "1A1z" "Vega"], SampleRun.two_blocks) /\
  exists bad,
    Sample.decode bad = None /\
    getStarsByWalletAddress (ext := Sample.externals) "1A1z"
      SampleRun.garbled =
    (Rejected (DecodeError bad), SampleRun.garbled).
Proof.
  split.
  - apply (proj1 (getStarsByWalletAddress_strict (ext := Sample.externals)
                    "1A1z" SampleRun.two_blocks)
             [GenesisData "Genesis Block"; StarData "1A1z" "Vega"]).
    reflexivity.
  - apply (proj2 (getStarsByWalletAddress_strict (ext := Sample.externals)
                    "1A1z" SampleRun.garbled)
             (Block.mk
                (Some "sha256({hash:null,height:<1>,body:S1A1z:Vega,time:<1200>,previousBlockHash:null})")
                (Some 1) "not a payload" (Some "1200")
                (Some "sha256({hash:null,height:<0>,body:GGenesis Block,time:<1000>,previousBlockHash:null})"))).
    + right. left. reflexivity.
    + reflexivity.
Defined.

(** ** The sample digest tells blocks apart *)

Lemma append_inv_head (s x y : string) : s ++ x = s ++ y -> x = y.
Proof.
  induction s as [|c s IH]; cbn; intros H; [exact H|].
  injection H as H. exact (IH H).
Qed.

Lemma append_inv_tail (t : string) : forall x y, x ++ t = y ++ t -> x = y.
Proof.
  induction x as [|c x IH]; intros [|d y] H; cbn in H.
  - reflexivity.
  - apply (f_equal String.length) in H. cbn in H.
    rewrite length_append in H. lia.
  - apply (f_equal String.length) in H. cbn in H.
    rewrite length_append in H. lia.
  - injection H as -> H. f_equal. exact (IH y H).
Qed.

Lemma sample_digest_injective (s1 s2 : string) :
  Sample.SHA256 s1 = Sample.SHA256 s2 -> s1 = s2.
Proof.
  unfold Sample.SHA256. intros H.
  apply (append_inv_head "sha256(") in H.
  exact (append_inv_tail _ _ _ H).
Qed.

Lemma decimal_prefix_unique (d1 : string) : forall d2 r1 r2,
  is_decimal d1 = true -> is_decimal d2 = true ->
  d1 ++ String ">" r1 = d2 ++ String ">" r2 -> d1 = d2.
Proof.
  induction d1 as [|c d1 IH]; intros [|c2 d2] r1 r2 H1 H2 H;
    cbn -[digit_value] in *.
  - reflexivity.
  - injection H as <- _. discriminate H2.
  - injection H as -> _. discriminate H1.
  - injection H as -> H.
    destruct (digit_value 10 c2); [|discriminate H1].
    f_equal. exact (IH d2 r1 r2 H1 H2 H).
Qed.

Lemma toString_nat_decimal (n : nat) : is_decimal (toString (Z.of_nat n)) = true.
Proof.
  unfold toString.
  destruct (Z.of_nat n <? 0) eqn:E; [apply Z.ltb_lt in E; lia|].
  apply digits_decimal. lia.
Qed.

Lemma sample_separates_heights (m n : nat)
    (body1 : string) (time1 : option string)
    (body2 : string) (time2 : option string) :
  Sample.SHA256 (Sample.JSON_stringify
    (Block.mk None (Some (Z.of_nat m)) body1 time1 None)) =
  Sample.SHA256 (Sample.JSON_stringify
    (Block.mk None (Some (Z.of_nat n)) body2 time2 None)) ->
  m = n.
Proof.
  intros H. apply sample_digest_injective in H.
  unfold Sample.JSON_stringify in H.
  cbn [Block.hash Block.height Block.body Block.time Block.previousBlockHash
       option_map] in H.
  apply (append_inv_head "{hash:") in H.
  apply (append_inv_head (Sample.show None)) in H.
  apply (append_inv_head ",height:") in H.
  unfold Sample.show at 1 4 in H.
  rewrite !append_assoc in H.
  apply (append_inv_head "<") in H.
  change (">" ++ ?x) with (String ">" x) in H.
  apply decimal_prefix_unique in H; try apply toString_nat_decimal.
  apply (f_equal (fun s => parseInt (Some s))) in H.
  rewrite !parseInt_toString in H by lia.
  injection H as H. lia.
Qed.

Lemma sample_separates_previous (h : option Z) (body : string)
    (time : option string) (p : string) :
  Sample.SHA256 (Sample.JSON_stringify (Block.mk None h body time (Some p))) <>
  Sample.SHA256 (Sample.JSON_stringify (Block.mk None h body time None)).
Proof.
  intros H. apply sample_digest_injective in H.
  unfold Sample.JSON_stringify in H.
  cbn [Block.hash Block.height Block.body Block.time Block.previousBlockHash]
    in H.
  do 9 apply append_inv_head in H.
  discriminate H.
Qed.

(** ** The further properties on the sample ledgers *)

Lemma submitStar_verify_throws_witness :
  Sample.verify "1A1z:1000:starRegistry" "1A1z" "malformed" =
    Throw (Error "Invalid signature length") /\
  submitStar (ext := Sample.externals) 1200000 1200001
    "1A1z" "1A1z:1000:starRegistry" "malformed" "Sirius"
    SampleRun.genesis_only =
  (Rejected (Error "Invalid signature length"), SampleRun.genesis_only).
Proof.
  split; [reflexivity|].
  apply (submitStar_verify_throws (ext := Sample.externals) 1200000 1200001
           "1A1z" "1A1z:1000:starRegistry" "malformed" "Sirius"
           SampleRun.genesis_only (Error "Invalid signature length")).
  reflexivity.
Defined.

Lemma submitStar_accepted_witness :
  exists b,
    submitStar (ext := Sample.externals) 1200000 1200001
      "1A1z" "1A1z:1000:starRegistry" "valid" "Vega" SampleRun.genesis_only =
    (Fulfilled b,
     mkBlockchain (chain SampleRun.genesis_only ++ [b])
       (Z.of_nat (List.length (chain SampleRun.genesis_only)) + 1)) /\
    Block.body b = Sample.encode (StarData "1A1z" "Vega") /\
    Block.height b =
      Some (Z.of_nat (List.length (chain SampleRun.genesis_only))) /\
    Block.time b = Some (timeText 1200001) /\
    Block.previousBlockHash b =
      match _getLatestBlock SampleRun.genesis_only with
      | Some latest => Block.hash latest
      | None => None
      end /\
    _getLatestBlock
      (snd (submitStar (ext := Sample.externals) 1200000 1200001
              "1A1z" "1A1z:1000:starRegistry" "valid" "Vega"
              SampleRun.genesis_only)) = Some b.
Proof.
  apply (submitStar_accepted (ext := Sample.externals) 1200000 1200001
           "1A1z" "1A1z:1000:starRegistry" "valid" "Vega"
           SampleRun.genesis_only).
  - exact sample_digest_truthy.
  - reflexivity.
  - reflexivity.
  - reflexivity.
Defined.

Lemma submitStar_pending_on_invalid_chain_witness :
  fst (validateChain (ext := Sample.externals) SampleRun.tampered) =
    Rejected (ErrorLog ["Block 0 validation failed."]) /\
  submitStar (ext := Sample.externals) 1200000 1200001
    "1A1z" "1A1z:1000:starRegistry" "valid" "Vega" SampleRun.tampered =
  (Pending, SampleRun.tampered).
Proof.
  split; [reflexivity|].
  apply (submitStar_pending_on_invalid_chain (ext := Sample.externals)
           1200000 1200001 "1A1z" "1A1z:1000:starRegistry" "valid" "Vega"
           SampleRun.tampered ["Block 0 validation failed."]);
    reflexivity.
Defined.

Lemma issued_message_expiry_witness :
  fst (requestMessageOwnershipVerification 1700000000123 "1A1z"
         SampleRun.genesis_only) =
    Fulfilled "1A1z:1700000000:starRegistry" /\
  expired 1700000299999 "1A1z:1700000000:starRegistry" = false /\
  expired 1700000300000 "1A1z:1700000000:starRegistry" = true.
Proof.
  split; [reflexivity|]. split.
  - apply (issued_message_expiry 1700000000123 1700000299999 "1A1z"
             "1A1z:1700000000:starRegistry" SampleRun.genesis_only);
      [reflexivity | lia | lia | reflexivity].
  - apply (issued_message_expiry 1700000000123 1700000300000 "1A1z"
             "1A1z:1700000000:starRegistry" SampleRun.genesis_only);
      [reflexivity | lia | lia | reflexivity].
Defined.

Lemma reachable_height_field_witness :
  (chain SampleRun.two_blocks = [] -> height SampleRun.two_blocks = -1) /\
  (chain SampleRun.two_blocks <> [] ->
   height SampleRun.two_blocks =
   Z.of_nat (List.length (chain SampleRun.two_blocks))).
Proof.
  apply (reachable_height_field (ext := Sample.externals) SampleRun.two_blocks).
  exact reachable_two_blocks.
Defined.

Lemma initializeChain_idempotent_witness :
  initializeChain (ext := Sample.externals) 1500000 SampleRun.two_blocks =
  (Fulfilled tt, SampleRun.two_blocks).
Proof.
  apply (initializeChain_idempotent (ext := Sample.externals) 1500000
           SampleRun.two_blocks).
  - exact reachable_two_blocks.
  - discriminate.
Defined.

Lemma getBlockByHeight_reachable_witness :
  getBlockByHeight 1 SampleRun.two_blocks =
    (Fulfilled (nth_error (chain SampleRun.two_blocks) 1),
     SampleRun.two_blocks) /\
  getBlockByHeight 99 SampleRun.two_blocks =
    (Fulfilled None, SampleRun.two_blocks) /\
  getBlockByHeight (-1) SampleRun.two_blocks =
    (Fulfilled None, SampleRun.two_blocks).
Proof.
  split; [|split].
  - apply (getBlockByHeight_reachable (ext := Sample.externals) 1
             SampleRun.two_blocks reachable_two_blocks).
  - apply (getBlockByHeight_reachable (ext := Sample.externals) 99
             SampleRun.two_blocks reachable_two_blocks).
  - apply (getBlockByHeight_reachable (ext := Sample.externals) (-1)
             SampleRun.two_blocks reachable_two_blocks).
Defined.

Lemma getBlockByHash_singleton_witness :
  exists b,
    nth_error (chain SampleRun.two_blocks) 1 = Some b /\
    getBlockByHash
      "sha256({hash:null,height:<1>,body:S1A1z:Vega,time:<1200>,previousBlockHash:null})"
      SampleRun.two_blocks =
    (Fulfilled [b], SampleRun.two_blocks).
Proof.
  eexists. split; [reflexivity|].
  apply (getBlockByHash_singleton (ext := Sample.externals)
           SampleRun.two_blocks 1).
  - exact sample_separates_heights.
  - exact reachable_two_blocks.
  - reflexivity.
  - reflexivity.
Defined.

Lemma star_found_after_submitStar_witness :
  getStarsByWalletAddress (ext := Sample.externals) "1A1z"
    SampleRun.two_blocks =
  (Fulfilled [StarData "1A1z" "Vega"], SampleRun.two_blocks).
Proof.
  apply (star_found_after_submitStar (ext := Sample.externals)
           1200000 1200001 "1A1z" "1A1z:1000:starRegistry" "valid" "Vega"
           SampleRun.genesis_only SampleRun.two_blocks
           (stored_block (ext := Sample.externals) 1200001
              (Block.create Sample.encode (StarData "1A1z" "Vega"))
              SampleRun.genesis_only)
           [GenesisData "Genesis Block"]);
    reflexivity.
Defined.

Lemma validateChain_skips_first_block_witness :
  fst (validateChain (ext := Sample.externals)
         (mkBlockchain SampleRun.consistent_pair 2)) = Fulfilled true /\
  fst (validateChain (ext := Sample.externals)
         (mkBlockchain SampleRun.consistent_pair_tampered 2)) = Fulfilled true.
Proof.
  split; [reflexivity|].
  change (Fulfilled true)
    with (fst (validateChain (ext := Sample.externals)
                 (mkBlockchain SampleRun.consistent_pair 2))).
  apply (validateChain_skips_first_block (ext := Sample.externals)).
  reflexivity.
Defined.

Lemma validateChain_genesis_witness :
  validateChain (ext := Sample.externals) SampleRun.genesis_only =
  (Fulfilled true, SampleRun.genesis_only).
Proof.
  apply (validateChain_genesis (ext := Sample.externals) SampleRun.genesis_only).
  - unfold SampleRun.genesis_only, constructor.
    apply reachable_initializeChain, reachable_new.
  - cbn. lia.
Defined.

Lemma chain_never_exceeds_two_blocks_witness :
  (List.length (chain SampleRun.two_blocks) <= 2)%nat.
Proof.
  apply (chain_never_exceeds_two_blocks (ext := Sample.externals)
           SampleRun.two_blocks).
  - exact sample_separates_previous.
  - exact reachable_two_blocks.
Defined.
